(** * PredictAid dashboard: the streaming response assembler

    A shallow embedding of [streamChat] and [handleSend] of
    [src/components/DisasterChatbot.tsx], together with the parts of the
    JavaScript platform they call: string primitives, the streaming UTF-8
    [TextDecoder], [JSON.parse], property access and the coercions applied
    to the parsed delta. *)

From Stdlib Require Import Strings.String Strings.Ascii Strings.Byte.
From Stdlib Require Import List NArith ZArith Lia Bool Arith.
From Stdlib Require QArith.
Import ListNotations.

Local Open Scope N_scope.
Local Open Scope list_scope.

(** ** JavaScript strings *)

(** A JavaScript string is a sequence of UTF-16 code units. *)
Definition code_unit := N.
Definition jsstring := list code_unit.

(** [js s] is the string literal [s] (one code unit per character). *)
Definition js (s : string) : jsstring :=
  map Byte.to_N (list_byte_of_string s).

(** [jsq s] is [s] with every apostrophe standing for a double quote: the
    JSON payloads of the examples are written with it. *)
Definition jsq (s : string) : jsstring :=
  map (fun c => if c =? 39 then 34 else c) (js s).

Definition LF : code_unit := 10.
Definition CR : code_unit := 13.

Fixpoint jseqb (a b : jsstring) : bool :=
  match a, b with
  | [], [] => true
  | x :: a', y :: b' => (x =? y) && jseqb a' b'
  | _, _ => false
  end.

(** [s.indexOf(c)] for a one-character needle; [None] is JavaScript's -1. *)
Fixpoint indexOf (c : code_unit) (s : jsstring) : option nat :=
  match s with
  | [] => None
  | x :: r => if x =? c then Some O else option_map S (indexOf c r)
  end.

(** [s.slice(0, i)] and [s.slice(i)] for an index [i] within the string. *)
Definition slice_to (i : nat) (s : jsstring) : jsstring := firstn i s.
Definition slice_from (i : nat) (s : jsstring) : jsstring := skipn i s.

Fixpoint startsWith (p s : jsstring) : bool :=
  match p, s with
  | [], _ => true
  | x :: p', y :: s' => (x =? y) && startsWith p' s'
  | _ :: _, [] => false
  end.

Definition endsWith (p s : jsstring) : bool :=
  startsWith (rev p) (rev s).

(** The code units [String.prototype.trim] removes: WhiteSpace and
    LineTerminator of ECMA-262. *)
Definition isWhiteSpace (c : code_unit) : bool :=
  ((9 <=? c) && (c <=? 13)) || (c =? 32) || (c =? 160) || (c =? 5760)
  || ((8192 <=? c) && (c <=? 8202)) || (c =? 8232) || (c =? 8233)
  || (c =? 8239) || (c =? 8287) || (c =? 12288) || (c =? 65279).

Fixpoint trimStart (s : jsstring) : jsstring :=
  match s with
  | [] => []
  | c :: r => if isWhiteSpace c then trimStart r else s
  end.

Definition trimEnd (s : jsstring) : jsstring := rev (trimStart (rev s)).
Definition trim (s : jsstring) : jsstring := trimEnd (trimStart s).

(** ** TextDecoder("utf-8"), streaming

    The decoder of the WHATWG Encoding standard, run with [{stream: true}]:
    a byte-at-a-time machine that keeps a partial sequence between calls,
    replaces malformed input by U+FFFD and drops one leading byte order
    mark. *)
Record TextDecoder := mkTextDecoder {
  codePoint : N;
  bytesSeen : nat;
  bytesNeeded : nat;
  lowerBoundary : N;
  upperBoundary : N;
  bomSeen : bool
}.

Definition newTextDecoder : TextDecoder :=
  mkTextDecoder 0 0 0 128 191 false.

Definition resetSequence (d : TextDecoder) : TextDecoder :=
  mkTextDecoder 0 0 0 128 191 (bomSeen d).

(** The handler on a byte read when no sequence is pending. *)
Definition utf8_lead (d : TextDecoder) (b : N) : TextDecoder * list N :=
  if b <=? 127 then (d, [b])
  else if (194 <=? b) && (b <=? 223) then
    (mkTextDecoder (N.land b 31) (bytesSeen d) 1
       (lowerBoundary d) (upperBoundary d) (bomSeen d), [])
  else if (224 <=? b) && (b <=? 239) then
    (mkTextDecoder (N.land b 15) (bytesSeen d) 2
       (if b =? 224 then 160 else lowerBoundary d)
       (if b =? 237 then 159 else upperBoundary d)
       (bomSeen d), [])
  else if (240 <=? b) && (b <=? 244) then
    (mkTextDecoder (N.land b 7) (bytesSeen d) 3
       (if b =? 240 then 144 else lowerBoundary d)
       (if b =? 244 then 143 else upperBoundary d)
       (bomSeen d), [])
  else (d, [65533]).

(** The handler: the scalar values one byte produces. *)
Definition utf8_handler (d : TextDecoder) (b : N) : TextDecoder * list N :=
  match bytesNeeded d with
  | O => utf8_lead d b
  | S _ =>
    if negb ((lowerBoundary d <=? b) && (b <=? upperBoundary d)) then
      (* error, and the byte is read again with no sequence pending *)
      let '(d', out) := utf8_lead (resetSequence d) b in (d', 65533 :: out)
    else
      let cp := N.lor (N.shiftl (codePoint d) 6) (N.land b 63) in
      let seen := S (bytesSeen d) in
      if Nat.eqb seen (bytesNeeded d) then (resetSequence d, [cp])
      else (mkTextDecoder cp seen (bytesNeeded d) 128 191 (bomSeen d), [])
  end.

(** Serialisation of one scalar value: the first one is dropped when it is
    the byte order mark; the others are written in UTF-16. *)
Definition utf16 (cp : N) : jsstring :=
  if cp <? 65536 then [cp]
  else [55296 + N.shiftr (cp - 65536) 10; 56320 + N.land (cp - 65536) 1023].

Definition serialize1 (d : TextDecoder) (cp : N) : TextDecoder * jsstring :=
  if bomSeen d then (d, utf16 cp)
  else
    let d' := mkTextDecoder (codePoint d) (bytesSeen d) (bytesNeeded d)
                (lowerBoundary d) (upperBoundary d) true in
    if cp =? 65279 then (d', []) else (d', utf16 cp).

Fixpoint serialize (d : TextDecoder) (cps : list N) : TextDecoder * jsstring :=
  match cps with
  | [] => (d, [])
  | cp :: r =>
    let '(d1, o1) := serialize1 d cp in
    let '(d2, o2) := serialize d1 r in (d2, o1 ++ o2)
  end.

Definition decode_byte (d : TextDecoder) (b : byte) : TextDecoder * jsstring :=
  let '(d1, cps) := utf8_handler d (Byte.to_N b) in serialize d1 cps.

(** [decoder.decode(value, { stream: true })]. *)
Fixpoint decode (d : TextDecoder) (value : list byte) : TextDecoder * jsstring :=
  match value with
  | [] => (d, [])
  | b :: r =>
    let '(d1, o1) := decode_byte d b in
    let '(d2, o2) := decode d1 r in (d2, o1 ++ o2)
  end.

(** The bytes of an ASCII literal, and the same with apostrophes standing
    for double quotes. *)
Definition bytes (s : string) : list byte := list_byte_of_string s.
Definition bytesq (s : string) : list byte :=
  map (fun b => if Byte.eqb b x27 then x22 else b) (bytes s).

(** ** JSON.parse *)

Local Set Warnings "-register-all".

(** A number keeps its source token: its value is a double, and the two
    places that look at it go through [NumberSemantics] below. *)
Inductive JSON :=
| JNull
| JBool (b : bool)
| JNumber (token : jsstring)
| JString (s : jsstring)
| JArray (elements : list JSON)
| JObject (members : list (jsstring * JSON)).

Inductive presult (A : Type) :=
| POk (a : A) (rest : jsstring)
| PSyntaxError
| PFuel.
Arguments POk {A} a rest.
Arguments PSyntaxError {A}.
Arguments PFuel {A}.

Definition isJsonWs (c : code_unit) : bool :=
  (c =? 32) || (c =? 9) || (c =? 10) || (c =? 13).

Fixpoint skip_ws (s : jsstring) : jsstring :=
  match s with
  | [] => []
  | c :: r => if isJsonWs c then skip_ws r else s
  end.

Definition isDigit (c : code_unit) : bool := (48 <=? c) && (c <=? 57).

Definition hexValue (c : code_unit) : option N :=
  if isDigit c then Some (c - 48)
  else if (97 <=? c) && (c <=? 102) then Some (c - 87)
  else if (65 <=? c) && (c <=? 70) then Some (c - 55)
  else None.

Definition hex4 (a b c d : code_unit) : option code_unit :=
  match hexValue a, hexValue b, hexValue c, hexValue d with
  | Some x, Some y, Some z, Some w => Some (((x * 16 + y) * 16 + z) * 16 + w)
  | _, _, _, _ => None
  end.

(** The character a one-letter escape stands for. *)
Definition simpleEscape (e : code_unit) : option code_unit :=
  if e =? 34 then Some 34          (* quote *)
  else if e =? 92 then Some 92     (* backslash *)
  else if e =? 47 then Some 47     (* slash *)
  else if e =? 98 then Some 8      (* b *)
  else if e =? 102 then Some 12    (* f *)
  else if e =? 110 then Some 10    (* n *)
  else if e =? 114 then Some 13    (* r *)
  else if e =? 116 then Some 9     (* t *)
  else None.

(** The characters of a string after its opening quote, up to and including
    the closing one; [acc] holds what was read, last first. *)
Fixpoint parse_string_chars (s acc : jsstring) : option (jsstring * jsstring) :=
  match s with
  | [] => None
  | c :: r =>
    if c =? 34 then Some (rev acc, r)
    else if c =? 92 then
      match r with
      | [] => None
      | e :: r1 =>
        if e =? 117 then
          match r1 with
          | h1 :: h2 :: h3 :: h4 :: r2 =>
            match hex4 h1 h2 h3 h4 with
            | Some u => parse_string_chars r2 (u :: acc)
            | None => None
            end
          | _ => None
          end
        else
          match simpleEscape e with
          | Some c' => parse_string_chars r1 (c' :: acc)
          | None => None
          end
      end
    else if c <? 32 then None
    else parse_string_chars r (c :: acc)
  end.

Fixpoint span_digits (s : jsstring) : jsstring * jsstring :=
  match s with
  | [] => ([], [])
  | c :: r =>
    if isDigit c then let '(ds, r') := span_digits r in (c :: ds, r')
    else ([], s)
  end.

(** A number token: an optional minus sign; an integer part, either a lone
    zero or digits that do not start with a zero; an optional fraction, a dot
    and at least one digit; an optional exponent, [e] or [E], an optional
    sign and at least one digit. *)
Definition parse_int (s : jsstring) : option (jsstring * jsstring) :=
  match s with
  | c :: r =>
    if c =? 48 then Some ([c], r)
    else if isDigit c then let '(ds, r') := span_digits r in Some (c :: ds, r')
    else None
  | [] => None
  end.

Definition parse_frac (s : jsstring) : option (jsstring * jsstring) :=
  match s with
  | c :: r =>
    if c =? 46 then
      match span_digits r with
      | ([], _) => None
      | (ds, r') => Some (c :: ds, r')
      end
    else Some ([], s)
  | [] => Some ([], s)
  end.

Definition parse_exp (s : jsstring) : option (jsstring * jsstring) :=
  match s with
  | c :: r =>
    if (c =? 101) || (c =? 69) then
      let '(sign, r1) :=
        match r with
        | g :: r0 => if (g =? 43) || (g =? 45) then ([g], r0) else ([], r)
        | [] => ([], r)
        end in
      match span_digits r1 with
      | ([], _) => None
      | (ds, r') => Some (c :: sign ++ ds, r')
      end
    else Some ([], s)
  | [] => Some ([], s)
  end.

Definition parse_number (s : jsstring) : option (jsstring * jsstring) :=
  let '(sign, s0) :=
    match s with
    | c :: r => if c =? 45 then ([c], r) else ([], s)
    | [] => ([], s)
    end in
  match parse_int s0 with
  | None => None
  | Some (i, s1) =>
    match parse_frac s1 with
    | None => None
    | Some (f, s2) =>
      match parse_exp s2 with
      | None => None
      | Some (e, s3) => Some (sign ++ i ++ f ++ e, s3)
      end
    end
  end.

(** [expect c s]: what follows [c] when [s] starts with it. *)
Definition expect (c : code_unit) (s : jsstring) : option jsstring :=
  match s with
  | x :: r => if x =? c then Some r else None
  | [] => None
  end.

(** [literal p s]: what follows the word [p] when [s] starts with it. *)
Definition literal (p s : jsstring) : option jsstring :=
  if startsWith p s then Some (skipn (length p) s) else None.

(** Recursive descent over values, array elements and object members.
    [parse_elements] and [parse_members] start at the first character of an
    element or of a member's key. *)
Fixpoint parse_value (fuel : nat) (s : jsstring) : presult JSON :=
  match fuel with
  | O => PFuel
  | S f =>
    match expect 123 s, expect 91 s, expect 34 s with
    | Some r, _, _ =>                                   (* an object *)
      match expect 125 (skip_ws r) with
      | Some r' => POk (JObject []) r'
      | None => parse_members f (skip_ws r) []
      end
    | _, Some r, _ =>                                   (* an array *)
      match expect 93 (skip_ws r) with
      | Some r' => POk (JArray []) r'
      | None => parse_elements f (skip_ws r) []
      end
    | _, _, Some r =>                                   (* a string *)
      match parse_string_chars r [] with
      | Some (str, r') => POk (JString str) r'
      | None => PSyntaxError
      end
    | None, None, None =>
      match literal (js "true") s, literal (js "false") s,
            literal (js "null") s with
      | Some r, _, _ => POk (JBool true) r
      | _, Some r, _ => POk (JBool false) r
      | _, _, Some r => POk JNull r
      | None, None, None =>
        match parse_number s with
        | Some (tok, r) => POk (JNumber tok) r
        | None => PSyntaxError
        end
      end
    end
  end
with parse_elements (fuel : nat) (s : jsstring) (acc : list JSON) : presult JSON :=
  match fuel with
  | O => PFuel
  | S f =>
    match parse_value f s with
    | POk v r =>
      match expect 44 (skip_ws r), expect 93 (skip_ws r) with
      | Some r', _ => parse_elements f (skip_ws r') (v :: acc)
      | _, Some r' => POk (JArray (rev (v :: acc))) r'
      | None, None => PSyntaxError
      end
    | PSyntaxError => PSyntaxError
    | PFuel => PFuel
    end
  end
with parse_members (fuel : nat) (s : jsstring) (acc : list (jsstring * JSON))
  : presult JSON :=
  match fuel with
  | O => PFuel
  | S f =>
    match expect 34 s with
    | None => PSyntaxError
    | Some r =>
      match parse_string_chars r [] with
      | None => PSyntaxError
      | Some (key, r1) =>
        match expect 58 (skip_ws r1) with
        | None => PSyntaxError
        | Some r2 =>
          match parse_value f (skip_ws r2) with
          | POk v r3 =>
            match expect 44 (skip_ws r3), expect 125 (skip_ws r3) with
            | Some r4, _ => parse_members f (skip_ws r4) ((key, v) :: acc)
            | _, Some r4 => POk (JObject (rev ((key, v) :: acc))) r4
            | None, None => PSyntaxError
            end
          | PSyntaxError => PSyntaxError
          | PFuel => PFuel
          end
        end
      end
    end
  end.

Definition parse_fuel (text : jsstring) : nat := 2 * length text + 2.

(** [JSON.parse(text)]; [None] is the SyntaxError it throws. *)
Definition JSON_parse (text : jsstring) : option JSON :=
  match parse_value (parse_fuel text) (skip_ws text) with
  | POk v r => match skip_ws r with [] => Some v | _ => None end
  | _ => None
  end.

(** ** Property access and coercions *)

(** A JavaScript value met here: [None] is [undefined]. *)
Definition JSValue := option JSON.

(** The own property [key] of a parsed object: of members with the same key
    the last one stands. *)
Fixpoint lookup (key : jsstring) (ms : list (jsstring * JSON)) : JSValue :=
  match ms with
  | [] => None
  | (k, v) :: r =>
    match lookup key r with
    | Some v' => Some v'
    | None => if jseqb k key then Some v else None
    end
  end.

(** [v.name] on a value other than [null], for a name that no built-in
    prototype defines ([choices], [delta], [content]). *)
Definition getNamed (name : jsstring) (v : JSON) : JSValue :=
  match v with
  | JObject ms => lookup name ms
  | _ => None
  end.

(** [v[0]] on a value other than [null]. *)
Definition getIndex0 (v : JSON) : JSValue :=
  match v with
  | JObject ms => lookup (js "0") ms
  | JArray (x :: _) => Some x
  | JString (c :: _) => Some (JString [c])
  | _ => None
  end.

(** [v?.p]: [undefined] on [null] and [undefined]. *)
Definition optionalChain (get : JSON -> JSValue) (v : JSValue) : JSValue :=
  match v with
  | None => None
  | Some JNull => None
  | Some x => get x
  end.

Inductive Exn :=
| SyntaxError
| TypeError
| Error (message : string)
| NetworkError.

(** [parsed.choices?.[0]?.delta?.content]: the first access is a plain one
    and throws on [null]. *)
Definition delta_content (parsed : JSON) : Exn + JSValue :=
  match parsed with
  | JNull => inl TypeError
  | _ =>
    inr (optionalChain (getNamed (js "content"))
          (optionalChain (getNamed (js "delta"))
            (optionalChain getIndex0 (getNamed (js "choices") parsed))))
  end.

(** What a double does where the code looks at a number: its truth value
    and its decimal text, both as functions of the number's token. *)
Class NumberSemantics := {
  Number_ToBoolean : jsstring -> bool;
  Number_ToString : jsstring -> jsstring
}.

(** An instance for closed examples: exact on the tokens of the integers
    from 0 to 2^53 written without sign, fraction or exponent. *)
Definition DecimalTokens : NumberSemantics :=
  {| Number_ToBoolean := fun tok => negb (jseqb tok (js "0"));
     Number_ToString := fun tok => tok |}.

Section Coercions.
Context {NS : NumberSemantics}.

Definition ToBoolean (v : JSValue) : bool :=
  match v with
  | None => false
  | Some JNull => false
  | Some (JBool b) => b
  | Some (JNumber tok) => Number_ToBoolean tok
  | Some (JString s) => negb (jseqb s [])
  | Some (JArray _) => true
  | Some (JObject _) => true
  end.

(** The text of a parsed value where a string is asked of it, as in
    [assistantContent += content]; [None] is the TypeError of a value that
    has no primitive.  An array is its elements joined by commas, with
    [null] elements written as nothing.  An object is converted by the
    [toString] it finds: the inherited one gives the fixed text, and an own
    member of that name, which is never callable in a parsed value, leaves
    only [valueOf], which gives the object back: the conversion throws. *)
Fixpoint ToString (v : JSON) : option jsstring :=
  match v with
  | JNull => Some (js "null")
  | JBool true => Some (js "true")
  | JBool false => Some (js "false")
  | JNumber tok => Some (Number_ToString tok)
  | JString s => Some s
  | JArray l =>
    (fix join (l : list JSON) : option jsstring :=
       match l with
       | [] => Some []
       | x :: r =>
         match match x with JNull => Some [] | _ => ToString x end with
         | None => None
         | Some sx =>
           match r with
           | [] => Some sx
           | _ :: _ =>
             match join r with
             | None => None
             | Some sr => Some (sx ++ js "," ++ sr)
             end
           end
         end
       end) l
  | JObject members =>
    match lookup (js "toString") members with
    | Some _ => None
    | None => Some (js "[object Object]")
    end
  end.

End Coercions.

(** ** The transcript *)

Inductive Role := user | assistant.

Definition Role_eqb (a b : Role) : bool :=
  match a, b with
  | user, user => true
  | assistant, assistant => true
  | _, _ => false
  end.

Record Message := mkMessage { role : Role; content : jsstring }.

(** [l[i]] for an integer index: [undefined] outside the array. *)
Definition item {A} (l : list A) (i : Z) : option A :=
  if (i <? 0)%Z then None else nth_error l (Z.to_nat i).

(** [l.map((m, i) => f(m, i))], the index counting from [start]. *)
Fixpoint map_from {A B} (f : A -> Z -> B) (start : Z) (l : list A) : list B :=
  match l with
  | [] => []
  | m :: r => f m start :: map_from f (start + 1)%Z r
  end.

Definition map_indexed {A B} (f : A -> Z -> B) (l : list A) : list B :=
  map_from f 0%Z l.

(** The updater handed to [setMessages] for a delta. *)
Definition updater (assistantContent : jsstring) (prev : list Message)
  : list Message :=
  let len := Z.of_nat (length prev) in
  let lastMsg := item prev (len - 1)%Z in
  if match lastMsg with
     | Some m => Role_eqb (role m) assistant
     | None => false
     end && (1 <? len)%Z
  then
    map_indexed (fun m i =>
      if (i =? len - 1)%Z
      then {| role := role m; content := assistantContent |}
      else m) prev
  else prev ++ [ {| role := assistant; content := assistantContent |} ].

(** ** streamChat *)

(** What one [reader.read()] settles to when the stream is not at its end;
    a stream is the list of these, and past its end every read reports
    [done]. *)
Inductive ReadResult :=
| Chunk (value : list byte)
| Rejected.

Record Response := mkResponse {
  ok : bool;
  body : option (list ReadResult)
}.

Inductive FetchResult :=
| Fulfilled (resp : Response)
| FetchRejected.

(** The state one call of [streamChat] works on: the component's [messages]
    (every [setMessages] updater is applied when it is handed over), the
    locals of the function, and the number of [reader.read()] calls made. *)
Record State := mkState {
  messages : list Message;
  textBuffer : jsstring;
  streamDone : bool;
  assistantContent : jsstring;
  decoder : TextDecoder;
  readCalls : nat
}.

Definition set_messages (m : list Message) (st : State) : State :=
  mkState m (textBuffer st) (streamDone st) (assistantContent st)
    (decoder st) (readCalls st).

Definition set_textBuffer (b : jsstring) (st : State) : State :=
  mkState (messages st) b (streamDone st) (assistantContent st)
    (decoder st) (readCalls st).

Definition set_streamDone (b : bool) (st : State) : State :=
  mkState (messages st) (textBuffer st) b (assistantContent st)
    (decoder st) (readCalls st).

Definition set_assistantContent (c : jsstring) (st : State) : State :=
  mkState (messages st) (textBuffer st) (streamDone st) c
    (decoder st) (readCalls st).

Definition set_decoder (d : TextDecoder) (st : State) : State :=
  mkState (messages st) (textBuffer st) (streamDone st) (assistantContent st)
    d (readCalls st).

Definition count_read (st : State) : State :=
  mkState (messages st) (textBuffer st) (streamDone st) (assistantContent st)
    (decoder st) (S (readCalls st)).

(** The React state of the component. *)
Module UI.
Record Component := mkComponent {
  messages : list Message;
  input : jsstring;
  isLoading : bool
}.
End UI.

(** [if (line.endsWith(CR)) line = line.slice(0, -1)]. *)
Definition stripCR (line : jsstring) : jsstring :=
  if endsWith [CR] line then removelast line else line.

(** How an iteration of the line loop ends: by reaching the end of the body
    or a [continue], or by a [break]. *)
Inductive Completion := Continue | Break.

Section Assembler.
Context {NS : NumberSemantics}.

(** [ToString] of a value that may be [undefined]. *)
Definition ToStringValue (v : JSValue) : option jsstring :=
  match v with
  | None => Some (js "undefined")
  | Some x => ToString x
  end.

(** The [try] block; [inl] is the exception that reaches the [catch]. *)
Definition tryBlock (st : State) (jsonStr : jsstring) : Exn + State :=
  match JSON_parse jsonStr with
  | None => inl SyntaxError
  | Some parsed =>
    match delta_content parsed with
    | inl e => inl e
    | inr delta =>
      if ToBoolean delta then
        match ToStringValue delta with
        | None => inl TypeError
        | Some text =>
          let assistantContent' := assistantContent st ++ text in
          inr (set_messages (updater assistantContent' (messages st))
                 (set_assistantContent assistantContent' st))
        end
      else inr st
    end
  end.

(** The body of the line loop after [textBuffer] was cut: [line0] is the
    line as extracted. *)
Definition lineBody (st : State) (line0 : jsstring) : State * Completion :=
  let line := stripCR line0 in
  if startsWith (js ":") line || jseqb (trim line) [] then (st, Continue)
  else if negb (startsWith (js "data: ") line) then (st, Continue)
  else
    let jsonStr := trim (slice_from 6 line) in
    if jseqb jsonStr (js "[DONE]") then (set_streamDone true st, Break)
    else
      match tryBlock st jsonStr with
      | inr st' => (st', Continue)
      | inl _ => (set_textBuffer (line ++ [LF] ++ textBuffer st) st, Break)
      end.

(** The line loop: [while ((newlineIndex = textBuffer.indexOf(LF)) !== -1)].
    Every iteration that goes on has shortened [textBuffer], so its length
    bounds the iterations. *)
Fixpoint lineLoop_fuel (fuel : nat) (st : State) : State :=
  match fuel with
  | O => st
  | S f =>
    match indexOf LF (textBuffer st) with
    | None => st
    | Some newlineIndex =>
      let line := slice_to newlineIndex (textBuffer st) in
      let st1 :=
        set_textBuffer (slice_from (newlineIndex + 1) (textBuffer st)) st in
      match lineBody st1 line with
      | (st2, Continue) => lineLoop_fuel f st2
      | (st2, Break) => st2
      end
    end
  end.

Definition lineLoop (st : State) : State :=
  lineLoop_fuel (S (length (textBuffer st))) st.

(** One iteration of the read loop on a chunk. *)
Definition readChunk (st : State) (value : list byte) : State :=
  let '(d, text) := decode (decoder st) value in
  lineLoop
    (set_textBuffer (textBuffer st ++ text) (set_decoder d (count_read st))).

(** The read loop: [while (!streamDone)]; the result is the exception that
    leaves [streamChat], if any, and the state then. *)
Fixpoint readLoop (st : State) (stream : list ReadResult)
  : option Exn * State :=
  if streamDone st then (None, st)
  else
    match stream with
    | [] => (None, count_read st)
    | Rejected :: _ => (Some NetworkError, count_read st)
    | Chunk value :: rest => readLoop (readChunk st value) rest
    end.

(** The states in which the read loop waits for [reader.read()]. *)
Fixpoint suspensions (st : State) (stream : list ReadResult) : list State :=
  if streamDone st then []
  else
    st :: match stream with
          | Chunk value :: rest => suspensions (readChunk st value) rest
          | _ => []
          end.

Definition initialState (msgs : list Message) : State :=
  mkState msgs [] false [] newTextDecoder 0.

(** [streamChat]: [msgs] is the transcript the updaters will find, and
    [fetched] what the request settles to. *)
Definition streamChat (msgs : list Message) (fetched : FetchResult)
  : option Exn * State :=
  match fetched with
  | FetchRejected => (Some NetworkError, initialState msgs)
  | Fulfilled resp =>
    match ok resp, body resp with
    | true, Some stream => readLoop (initialState msgs) stream
    | _, _ => (Some (Error "Failed to start stream"), initialState msgs)
    end
  end.

(** A response that starts the stream, delivers the chunks [values] and then
    ends. *)
Definition streamOf (values : list (list byte)) : FetchResult :=
  Fulfilled (mkResponse true (Some (map Chunk values))).

(** ** handleSend *)

Definition fallbackMessage : Message :=
  {| role := assistant;
     content := js "Sorry, I encountered an error. Please try again." |}.

(** The component when [streamChat] is called: the user's message appended,
    the input cleared, the busy flag set. *)
Definition beginSend (c : UI.Component) : UI.Component :=
  let userMessage := {| role := user; content := UI.input c |} in
  UI.mkComponent (UI.messages c ++ [userMessage]) [] true.

(** The [catch] and [finally] of [handleSend], on what [streamChat] left. *)
Definition settleSend (c : UI.Component) (r : option Exn * State)
  : UI.Component :=
  let '(thrown, st) := r in
  let msgs :=
    match thrown with
    | Some _ => messages st ++ [fallbackMessage]
    | None => messages st
    end in
  UI.mkComponent msgs (UI.input c) false.

Definition handleSend (c : UI.Component) (fetched : FetchResult)
  : UI.Component :=
  if jseqb (trim (UI.input c)) [] || UI.isLoading c then c
  else
    let c1 := beginSend c in
    settleSend c1 (streamChat (UI.messages c1) fetched).

End Assembler.

(** ** Notions the properties are stated with *)

(** The text after the six characters of the prefix, trimmed. *)
Definition payload (line : jsstring) : jsstring := trim (slice_from 6 line).

(** What the tests at the head of the loop body make of an extracted line:
    passed over, the sentinel, or an event with its payload. *)
Inductive LineKind :=
| Ignored
| Sentinel
| Event (jsonStr : jsstring).

Definition classify (line0 : jsstring) : LineKind :=
  let line := stripCR line0 in
  if startsWith (js ":") line || jseqb (trim line) [] then Ignored
  else if negb (startsWith (js "data: ") line) then Ignored
  else if jseqb (payload line) (js "[DONE]") then Sentinel
  else Event (payload line).

Section Requeue.
Context {NS : NumberSemantics}.

(** The [try] block throws on this payload: it does not parse, it is
    [null], or its delta is truthy and has no text. *)
Definition throws (jsonStr : jsstring) : bool :=
  match JSON_parse jsonStr with
  | None => true
  | Some parsed =>
    match delta_content parsed with
    | inl _ => true
    | inr delta =>
      ToBoolean delta
      && match ToStringValue delta with None => true | Some _ => false end
    end
  end.

(** The lines the [catch] puts back. *)
Definition requeues (line0 : jsstring) : bool :=
  match classify line0 with
  | Event jsonStr => throws jsonStr
  | _ => false
  end.

(** A buffer whose first line is one the [catch] puts back. *)
Definition requeued (buffer : jsstring) : Prop :=
  exists line rest,
    buffer = line ++ LF :: rest /\ indexOf LF line = None
    /\ requeues line = true.

(** What a reader of the chat sees of a state. *)
Definition shown (st : State) : list Message * jsstring :=
  (messages st, assistantContent st).

(** The states the read loop can be in between two reads: finished by the
    sentinel, holding an unfinished line only, or held up by a line that
    was put back. *)
Definition settled (st : State) : Prop :=
  streamDone st = true
  \/ indexOf LF (textBuffer st) = None
  \/ requeued (textBuffer st).

End Requeue.

(** A result of the parser that is not a lack of fuel and, when it is a
    value, has consumed input. *)
Definition progresses (res : presult JSON) (s : jsstring) : Prop :=
  res <> PFuel /\ forall v r, res = POk v r -> (length r < length s)%nat.

(** The read loop would go on and finds no complete line. *)
Definition waiting (st : State) : bool :=
  negb (streamDone st)
  && match indexOf LF (textBuffer st) with None => true | Some _ => false end.

(** The text after the last newline of [s]: the line that is still being
    received. *)
Fixpoint unfinishedLine (s : jsstring) : jsstring :=
  match s with
  | [] => []
  | c :: r =>
    match indexOf LF (c :: r) with
    | None => c :: r
    | Some _ => unfinishedLine r
    end
  end.

(** [textBuffer += text]. *)
Definition append_text (st : State) (text : jsstring) : State :=
  set_textBuffer (textBuffer st ++ text) st.

(** The same state with another decoder and read count. *)
Definition retag (d : TextDecoder) (n : nat) (st : State) : State :=
  mkState (messages st) (textBuffer st) (streamDone st) (assistantContent st)
    d n.

(** The text delta of a payload, when it parses and carries one that is a
    string and not empty. *)
Definition stringDelta (jsonStr : jsstring) : option jsstring :=
  match JSON_parse jsonStr with
  | Some parsed =>
    match delta_content parsed with
    | inr (Some (JString (c :: s))) => Some (c :: s)
    | _ => None
    end
  | None => None
  end.

(** The stream of the scenario: two deltas and the sentinel. *)
Definition helloStream : list byte :=
  bytesq "data: {'choices':[{'delta':{'content':'Hel'}}]}" ++ [x0a]
  ++ bytesq "data: {'choices':[{'delta':{'content':'lo'}}]}" ++ [x0a]
  ++ bytes "data: [DONE]" ++ [x0a].

(** A delta line that arrives in two chunks, cut inside its payload. *)
Definition splitHead : list byte := bytesq "data: {'choices':[{'delta':{'con".
Definition splitTail : list byte := bytesq "tent':'Hi'}}]}" ++ [x0a].

(** A complete delta line followed by the head of the cut one, in one
    chunk. *)
Definition lineAndHead : list byte :=
  bytesq "data: {'choices':[{'delta':{'content':'Hel'}}]}" ++ [x0a]
  ++ splitHead.

(** A complete delta line whose content is an object with a member
    [toString], which no concatenation can turn into text. *)
Definition objectDelta : list byte :=
  bytesq "data: {'choices':[{'delta':{'content':{'toString':1}}}]}" ++ [x0a].

(** A complete line whose payload does not parse. *)
Definition brokenLine : list byte := bytes "data: {" ++ [x0a].

(** A component with a question typed in, and not busy. *)
Definition asking : UI.Component :=
  UI.mkComponent [ {| role := assistant; content := js "Hello!" |} ]
    (js "Is it safe?") false.

Section Feeding.
Context {NS : NumberSemantics}.

(** An iteration of the read loop, on the text the decoder returned. *)
Definition feedText (st : State) (text : jsstring) : State :=
  if streamDone st then st else lineLoop (append_text st text).

(** C1 as the specification states it, for a line that arrives cut into
    [v1] and [v2]: after the read of [v1] the text read is back at the front
    of [textBuffer] followed by a newline, and the two reads end with the
    content the whole line gives when read at once. *)
Definition requeue_and_retry (msgs : list Message) (v1 v2 : list byte) : Prop :=
  textBuffer (readChunk (initialState msgs) v1)
  = snd (decode newTextDecoder v1) ++ [LF]
  /\ assistantContent (snd (streamChat msgs (streamOf [v1; v2])))
     = assistantContent (snd (streamChat msgs (streamOf [v1 ++ v2]))).

(** C8 as the specification states it: no state in which the read loop
    waits for a read holds a complete line. *)
Definition buffer_holds_no_line (msgs : list Message)
           (stream : list ReadResult) : Prop :=
  forall st,
    In st (suspensions (initialState msgs) stream) ->
    indexOf LF (textBuffer st) = None.

End Feeding.

(** ** What the chat shows *)

(** The condition under which the row "Thinking..." is rendered:
    [isLoading && messages[messages.length - 1]?.role === 'user']. *)
Definition showsThinking (c : UI.Component) : bool :=
  UI.isLoading c
  && match item (UI.messages c) (Z.of_nat (length (UI.messages c)) - 1) with
     | Some m => Role_eqb (role m) user
     | None => false
     end.

(** [disabled] of the send button: [isLoading || !input.trim()]. *)
Definition sendDisabled (c : UI.Component) : bool :=
  UI.isLoading c || jseqb (trim (UI.input c)) [].

(** The component as it is rendered while [streamChat] waits in the state
    [st]: the input was cleared and the busy flag set before the call. *)
Definition rendering (st : State) : UI.Component :=
  UI.mkComponent (messages st) [] true.

(** The transcript [sent] and the reply built so far: no delta was applied
    yet, or the transcript is [sent] followed by one assistant entry that
    holds [assistantContent]. *)
Definition inSync (sent : list Message) (st : State) : Prop :=
  (messages st = sent /\ assistantContent st = [])
  \/ messages st
     = sent ++ [ {| role := assistant; content := assistantContent st |} ].

(** The complete lines of a text, each without its newline; [cur] holds the
    line being read, last character first. *)
Fixpoint completeLines_from (cur s : jsstring) : list jsstring :=
  match s with
  | [] => []
  | c :: r =>
    if c =? LF then rev cur :: completeLines_from [] r
    else completeLines_from (c :: cur) r
  end.

Definition completeLines (s : jsstring) : list jsstring :=
  completeLines_from [] s.

Section Lines.
Context {NS : NumberSemantics}.

(** What the [if (content)] branch does to the transcript and the content;
    [None] when the concatenation throws. *)
Definition applyDelta (delta : JSValue) (sh : list Message * jsstring)
  : option (list Message * jsstring) :=
  if ToBoolean delta then
    match ToStringValue delta with
    | None => None
    | Some text =>
      let assistantContent' := snd sh ++ text in
      Some (updater assistantContent' (fst sh), assistantContent')
    end
  else Some sh.

(** The transcript and the content after a list of lines, taken in order:
    the sentinel and the first line the [try] block throws on end it. *)
Fixpoint shownAfter (lines : list jsstring) (sh : list Message * jsstring)
  : list Message * jsstring :=
  match lines with
  | [] => sh
  | line0 :: rest =>
    match classify line0 with
    | Ignored => shownAfter rest sh
    | Sentinel => sh
    | Event jsonStr =>
      match JSON_parse jsonStr with
      | None => sh
      | Some parsed =>
        match delta_content parsed with
        | inl _ => sh
        | inr delta =>
          match applyDelta delta sh with
          | None => sh
          | Some sh' => shownAfter rest sh'
          end
        end
      end
    end
  end.

End Lines.

(** ** The weather component *)

(** A JavaScript number by its value: comparisons with integer constants
    are all the code below does with one. *)
Inductive JSNumber :=
| NaN
| NegInfinity
| Finite (q : QArith_base.Q)
| PosInfinity.

(** [x === n] and [x <= n] for an integer constant [n]. *)
Definition strictEquals (x : JSNumber) (n : Z) : bool :=
  match x with
  | Finite q => QArith_base.Qeq_bool q (QArith_base.inject_Z n)
  | _ => false
  end.

Definition lessOrEqual (x : JSNumber) (n : Z) : bool :=
  match x with
  | NaN => false
  | NegInfinity => true
  | Finite q => QArith_base.Qle_bool q (QArith_base.inject_Z n)
  | PosInfinity => false
  end.

Definition getWeatherCondition (code : JSNumber) : jsstring :=
  if strictEquals code 0 then js "Clear Sky"
  else if lessOrEqual code 3 then js "Partly Cloudy"
  else if lessOrEqual code 48 then js "Cloudy"
  else if lessOrEqual code 67 then js "Light Rain"
  else if lessOrEqual code 77 then js "Heavy Rain"
  else if lessOrEqual code 82 then js "Rain Showers"
  else if lessOrEqual code 99 then js "Thunderstorm"
  else js "Haze".

(** [s.includes(needle)]. *)
Fixpoint includes (needle s : jsstring) : bool :=
  startsWith needle s
  || match s with
     | [] => false
     | _ :: r => includes needle r
     end.

(** The icons, in UTF-16: cloud with rain, thunder cloud and rain, cloud,
    sun, sun behind cloud, fog, sun behind small cloud. *)
Definition iconRain : jsstring := [55356; 57127; 65039].
Definition iconThunder : jsstring := [9928; 65039].
Definition iconCloud : jsstring := [9729; 65039].
Definition iconSun : jsstring := [9728; 65039].
Definition iconPartly : jsstring := [9925].
Definition iconFog : jsstring := [55356; 57131; 65039].
Definition iconDefault : jsstring := [55356; 57124; 65039].

Definition getWeatherIcon (condition : jsstring) : jsstring :=
  if includes (js "Rain") condition then iconRain
  else if includes (js "Thunder") condition then iconThunder
  else if includes (js "Cloudy") condition then iconCloud
  else if includes (js "Clear") condition || includes (js "Sunny") condition
  then iconSun
  else if includes (js "Partly") condition then iconPartly
  else if includes (js "Haze") condition then iconFog
  else iconDefault.

(** What the reverse geocoding request settles to: a rejection, or a
    response with the text of its body. *)
Inductive GeocodeResponse :=
| GeocodeRejected
| GeocodeBody (text : jsstring).

Section Geolocation.
Context {NS : NumberSemantics}.

(** The coordinates are doubles handed through as they are; [delhiLat] and
    [delhiLon] are the doubles of the literals 28.6139 and 77.2090. *)
Variable number : Type.
Variables delhiLat delhiLon : number.

(** What [getCurrentPosition] calls back with. *)
Inductive PositionResult :=
| Position (latitude longitude : number)
| PositionError.

Record Location := mkLocation {
  lat : number;
  lon : number;
  city : JSValue
}.

(** [a || b]. *)
Definition orElse (a b : JSValue) : JSValue :=
  if ToBoolean a then a else b.

(** [data.address?.city || data.address?.town || data.address?.village ||
    data.name || 'Unknown Location']; the plain access [data.address]
    throws on [null]. *)
Definition cityName (data : JSON) : Exn + JSValue :=
  match data with
  | JNull => inl TypeError
  | _ =>
    let address := getNamed (js "address") data in
    inr (orElse
           (orElse
              (orElse
                 (orElse (optionalChain (getNamed (js "city")) address)
                    (optionalChain (getNamed (js "town")) address))
                 (optionalChain (getNamed (js "village")) address))
              (getNamed (js "name") data))
           (Some (JString (js "Unknown Location"))))
  end.


(** The success callback: the [try] with its [catch]. *)
Definition onPosition (latitude longitude : number) (resp : GeocodeResponse)
  : Location :=
  let caught := mkLocation latitude longitude
                  (Some (JString (js "Current Location"))) in
  match resp with
  | GeocodeRejected => caught
  | GeocodeBody text =>
    match JSON_parse text with
    | None => caught
    | Some data =>
      match cityName data with
      | inl _ => caught
      | inr name => mkLocation latitude longitude name
      end
    end
  end.

(** [getCurrentLocation]: the location it sets. [geolocation] is [None]
    when the browser has no [navigator.geolocation]. *)
Definition getCurrentLocation (geolocation : option PositionResult)
           (resp : GeocodeResponse) : Location :=
  let delhi := mkLocation delhiLat delhiLon (Some (JString (js "Delhi"))) in
  match geolocation with
  | None => delhi
  | Some PositionError => delhi
  | Some (Position latitude longitude) => onPosition latitude longitude resp
  end.

End Geolocation.

Arguments Position {number} latitude longitude.
Arguments PositionError {number}.
Arguments mkLocation {number} lat lon city.
Arguments lat {number} l.
Arguments lon {number} l.
Arguments city {number} l.
Arguments onPosition {NS number} latitude longitude resp.
Arguments getCurrentLocation {NS number} delhiLat delhiLon geolocation resp.

(** The coordinates of the fallback, 28.6139 and 77.2090, as fractions, and
    a measured position. *)
Definition delhiLatitude : QArith_base.Q := QArith_base.Qmake 286139 10000.
Definition delhiLongitude : QArith_base.Q := QArith_base.Qmake 772090 10000.
Definition measured : PositionResult QArith_base.Q :=
  Position (QArith_base.Qmake 2718 100) (QArith_base.Qmake 7802 100).

(** * Properties *)

(** ** Strings *)

Lemma jseqb_eq (a b : jsstring) : jseqb a b = true <-> a = b.
Proof.
  revert b; induction a as [|x a IH]; intros [|y b]; simpl;
    try (split; (reflexivity || discriminate)).
  rewrite andb_true_iff, N.eqb_eq, IH.
  split; [intros [-> ->]; reflexivity | intros [= -> ->]; auto].
Qed.

Lemma jseqb_refl (a : jsstring) : jseqb a a = true.
Proof. apply jseqb_eq; reflexivity. Qed.

Lemma jseqb_neq (a b : jsstring) : jseqb a b = false <-> a <> b.
Proof.
  rewrite <- jseqb_eq. destruct (jseqb a b); split; congruence.
Qed.

Lemma indexOf_None (c : code_unit) (s : jsstring) :
  indexOf c s = None <-> ~ In c s.
Proof.
  induction s as [|x s IH]; simpl.
  - split; auto.
  - destruct (N.eqb_spec x c) as [->|Hne].
    + split; [discriminate | intros H; exfalso; apply H; auto].
    + destruct (indexOf c s); simpl.
      * split; [discriminate|]. intros H; exfalso.
        destruct (in_dec N.eq_dec c s) as [Hin|Hin]; [apply H; auto|].
        apply IH in Hin; discriminate.
      * split; auto. intros _ [H|H]; [congruence | now apply IH].
Qed.

Lemma indexOf_app_None (c : code_unit) (a b : jsstring) :
  indexOf c (a ++ b) = None <-> indexOf c a = None /\ indexOf c b = None.
Proof.
  rewrite !indexOf_None, in_app_iff. tauto.
Qed.

(** The first occurrence splits the string. *)
Lemma indexOf_split (c : code_unit) (line rest : jsstring) :
  indexOf c line = None ->
  indexOf c (line ++ c :: rest) = Some (length line)
  /\ slice_to (length line) (line ++ c :: rest) = line
  /\ slice_from (length line + 1) (line ++ c :: rest) = rest.
Proof.
  unfold slice_to, slice_from.
  induction line as [|x line IH]; simpl; intros H.
  - rewrite N.eqb_refl; auto.
  - destruct (x =? c); [discriminate|].
    destruct (indexOf c line); [discriminate|].
    destruct (IH eq_refl) as (-> & -> & ->); auto.
Qed.

Lemma indexOf_Some (c : code_unit) (s : jsstring) (i : nat) :
  indexOf c s = Some i ->
  exists line rest,
    s = line ++ c :: rest /\ indexOf c line = None /\ length line = i.
Proof.
  revert i; induction s as [|x s IH]; simpl; intros i H; [discriminate|].
  destruct (N.eqb_spec x c) as [->|Hne].
  - injection H as <-. exists [], s; auto.
  - destruct (indexOf c s) as [j|]; [|discriminate].
    injection H as <-. destruct (IH j eq_refl) as (line & rest & -> & Hl & <-).
    exists (x :: line), rest; simpl.
    destruct (N.eqb_spec x c); [congruence|]. rewrite Hl; auto.
Qed.

Lemma unfinishedLine_none (s : jsstring) :
  indexOf LF s = None -> unfinishedLine s = s.
Proof.
  destruct s as [|c r]; [reflexivity|].
  intros H. cbn [unfinishedLine]. rewrite H. reflexivity.
Qed.

Lemma unfinishedLine_app (a b : jsstring) :
  unfinishedLine (a ++ LF :: b) = unfinishedLine b.
Proof.
  induction a as [|x a IH].
  - reflexivity.
  - change ((x :: a) ++ LF :: b) with (x :: (a ++ LF :: b)).
    cbn [unfinishedLine].
    destruct (indexOf LF (x :: a ++ LF :: b)) eqn:E; [exact IH|].
    change (x :: a ++ LF :: b) with ((x :: a) ++ LF :: b) in E.
    apply indexOf_app_None in E as [_ E]. simpl in E. discriminate E.
Qed.

Lemma unfinishedLine_no_LF (s : jsstring) :
  indexOf LF (unfinishedLine s) = None.
Proof.
  induction s as [|c r IH]; [reflexivity|].
  cbn [unfinishedLine].
  destruct (indexOf LF (c :: r)) eqn:E; assumption.
Qed.

Lemma startsWith_app (p s t : jsstring) :
  startsWith p s = true -> startsWith p (s ++ t) = true.
Proof.
  revert s; induction p as [|x p IH]; intros [|y s]; simpl; auto; try discriminate.
  rewrite !andb_true_iff; intros [? ?]; auto.
Qed.

Lemma startsWith_prefix (p s : jsstring) :
  startsWith p s = true <-> exists t, s = p ++ t.
Proof.
  revert s; induction p as [|x p IH]; intros s; simpl.
  - split; eauto.
  - destruct s as [|y s].
    + split; [discriminate | intros [t Ht]; discriminate].
    + rewrite andb_true_iff, N.eqb_eq, IH. split.
      * intros [-> [t ->]]; eauto.
      * intros [t [= -> ->]]; eauto.
Qed.

Lemma endsWith_snoc (c x : code_unit) (s : jsstring) :
  endsWith [c] (s ++ [x]) = (x =? c).
Proof.
  unfold endsWith; rewrite rev_app_distr; simpl.
  rewrite N.eqb_sym, andb_true_r; reflexivity.
Qed.

Lemma endsWith_nil (c : code_unit) : endsWith [c] [] = false.
Proof. reflexivity. Qed.

Lemma trimStart_all_ws (s : jsstring) :
  forallb isWhiteSpace s = true -> trimStart s = [].
Proof.
  induction s as [|x s IH]; simpl; auto.
  destruct (isWhiteSpace x); simpl; auto; discriminate.
Qed.

Lemma trimStart_app_ws (s : jsstring) (c : code_unit) :
  isWhiteSpace c = true ->
  trimStart (s ++ [c]) = [] /\ trimStart s = []
  \/ trimStart (s ++ [c]) = trimStart s ++ [c] /\ trimStart s <> [].
Proof.
  intros Hc; induction s as [|x s IH]; simpl.
  - rewrite Hc; auto.
  - destruct (isWhiteSpace x); auto. right; split; [reflexivity | discriminate].
Qed.

Lemma trimEnd_snoc_ws (s : jsstring) (c : code_unit) :
  isWhiteSpace c = true -> trimEnd (s ++ [c]) = trimEnd s.
Proof.
  intros Hc; unfold trimEnd. rewrite rev_app_distr; simpl.
  rewrite Hc; reflexivity.
Qed.

(** A white-space character at the end does not change what [trim] gives. *)
Lemma trim_snoc_ws (s : jsstring) (c : code_unit) :
  isWhiteSpace c = true -> trim (s ++ [c]) = trim s.
Proof.
  intros Hc; unfold trim.
  destruct (trimStart_app_ws s c Hc) as [[-> ->]|[-> _]]; auto.
  apply trimEnd_snoc_ws; assumption.
Qed.

Lemma trimEnd_cons_nonws (x : code_unit) (s : jsstring) :
  isWhiteSpace x = false -> trimEnd (x :: s) <> [].
Proof.
  intros Hx; unfold trimEnd; simpl.
  assert (H : forall t, trimStart (t ++ [x]) <> []).
  { induction t as [|y t IH]; simpl.
    - rewrite Hx; discriminate.
    - destruct (isWhiteSpace y); auto; discriminate. }
  specialize (H (rev s)). intros E. apply H.
  apply (f_equal (@rev _)) in E. rewrite rev_involutive in E. exact E.
Qed.

Lemma trim_cons_nonws (x : code_unit) (s : jsstring) :
  isWhiteSpace x = false -> trim (x :: s) <> [].
Proof.
  intros Hx; unfold trim; simpl; rewrite Hx.
  apply trimEnd_cons_nonws; assumption.
Qed.

(** ** JSON.parse: the fuel is never used up *)

Lemma skip_ws_length (s : jsstring) : (length (skip_ws s) <= length s)%nat.
Proof.
  induction s as [|c s IH]; simpl; [lia|].
  destruct (isJsonWs c); simpl; lia.
Qed.

Lemma expect_length (c : code_unit) (s r : jsstring) :
  expect c s = Some r -> length s = S (length r).
Proof.
  destruct s as [|x s]; simpl; [discriminate|].
  destruct (x =? c); [intros [= ->]; reflexivity | discriminate].
Qed.

Lemma startsWith_length (p s : jsstring) :
  startsWith p s = true -> (length p <= length s)%nat.
Proof.
  intros H; apply startsWith_prefix in H as [t ->].
  rewrite length_app; lia.
Qed.

Lemma literal_length (p s r : jsstring) :
  literal p s = Some r -> (length r + length p = length s)%nat.
Proof.
  unfold literal. destruct (startsWith p s) eqn:E; [|discriminate].
  intros [= <-]. apply startsWith_length in E. rewrite length_skipn. lia.
Qed.

Lemma span_digits_length (s : jsstring) :
  (length (snd (span_digits s)) <= length s)%nat.
Proof.
  induction s as [|c s IH]; simpl; [lia|].
  destruct (isDigit c); simpl; [|lia].
  destruct (span_digits s); simpl in *; lia.
Qed.

Lemma parse_string_chars_length (s acc k r : jsstring) :
  parse_string_chars s acc = Some (k, r) -> (length r < length s)%nat.
Proof.
  remember (length s) as n eqn:Hn. revert s acc Hn.
  induction n as [n IH] using lt_wf_ind; intros s acc Hn.
  destruct s as [|c s]; simpl; [discriminate|].
  destruct (c =? 34); [intros [= _ <-]; simpl in Hn; lia|].
  destruct (c =? 92).
  - destruct s as [|e r1]; [discriminate|].
    destruct (e =? 117).
    + destruct r1 as [|h1 [|h2 [|h3 [|h4 r2]]]]; try discriminate.
      destruct (hex4 h1 h2 h3 h4); [|discriminate].
      intros H. apply (IH (length r2)) in H; simpl in *; try lia.
    + destruct (simpleEscape e); [|discriminate].
      intros H. apply (IH (length r1)) in H; simpl in *; try lia.
  - destruct (c <? 32); [discriminate|].
    intros H. apply (IH (length s)) in H; simpl in *; try lia.
Qed.

Lemma parse_number_length (s tok r : jsstring) :
  parse_number s = Some (tok, r) -> (length r < length s)%nat.
Proof.
  unfold parse_number.
  set (p := match s with
            | [] => ([], s)
            | c :: r0 => if c =? 45 then ([c], r0) else ([], s)
            end).
  assert (Hp : (length (snd p) <= length s)%nat).
  { subst p. destruct s as [|c r0]; simpl; [lia|].
    destruct (c =? 45); simpl; lia. }
  destruct p as [sign s0]; simpl in Hp.
  destruct (parse_int s0) as [[i s1]|] eqn:Hi; [|discriminate].
  assert (H1 : (length s1 < length s0)%nat).
  { unfold parse_int in Hi. destruct s0 as [|c r0]; [discriminate|].
    destruct (c =? 48); [injection Hi as _ <-; simpl; lia|].
    destruct (isDigit c); [|discriminate].
    pose proof (span_digits_length r0) as L.
    destruct (span_digits r0); injection Hi as _ <-; simpl in *; lia. }
  destruct (parse_frac s1) as [[f s2]|] eqn:Hf; [|discriminate].
  assert (H2 : (length s2 <= length s1)%nat).
  { unfold parse_frac in Hf. destruct s1 as [|c r0]; [injection Hf as _ <-; lia|].
    destruct (c =? 46); [|injection Hf as _ <-; lia].
    pose proof (span_digits_length r0) as L.
    destruct (span_digits r0) as [[|d ds] r']; [discriminate|].
    injection Hf as _ <-; simpl in *; lia. }
  destruct (parse_exp s2) as [[e s3]|] eqn:He; [|discriminate].
  assert (H3 : (length s3 <= length s2)%nat).
  { unfold parse_exp in He. destruct s2 as [|c r0]; [injection He as _ <-; lia|].
    destruct ((c =? 101) || (c =? 69)); [|injection He as _ <-; lia].
    set (q := match r0 with
              | [] => ([], r0)
              | g :: r1 => if (g =? 43) || (g =? 45) then ([g], r1) else ([], r0)
              end) in He.
    assert (Hq : (length (snd q) <= length r0)%nat).
    { subst q. destruct r0 as [|g r1]; simpl; [lia|].
      destruct ((g =? 43) || (g =? 45)); simpl; lia. }
    destruct q as [sg r1]; simpl in Hq.
    pose proof (span_digits_length r1) as L.
    destruct (span_digits r1) as [[|d ds] r']; [discriminate|].
    injection He as _ <-; simpl in *; lia. }
  intros [= _ <-]. lia.
Qed.

Lemma progresses_le (res : presult JSON) (s s' : jsstring) :
  progresses res s' -> (length s' <= length s)%nat -> progresses res s.
Proof.
  intros [H1 H2] L; split; [exact H1|].
  intros v r E; specialize (H2 v r E); lia.
Qed.

Lemma progresses_error (s : jsstring) : progresses PSyntaxError s.
Proof. split; [discriminate | intros v r; discriminate]. Qed.

Lemma progresses_ok (v : JSON) (r s : jsstring) :
  (length r < length s)%nat -> progresses (POk v r) s.
Proof. intros L; split; [discriminate | intros v' r' [= _ <-]; exact L]. Qed.

Lemma parse_fuel_enough (fuel : nat) :
  (forall s, (2 * length s + 1 <= fuel)%nat ->
             progresses (parse_value fuel s) s)
  /\ (forall s acc, (2 * length s + 2 <= fuel)%nat ->
                    progresses (parse_elements fuel s acc) s)
  /\ (forall s acc, (2 * length s + 2 <= fuel)%nat ->
                    progresses (parse_members fuel s acc) s).
Proof.
  induction fuel as [|f (IHv & IHe & IHm)]; [repeat split; intros; lia|].
  split; [|split].
  - intros s L. simpl.
    destruct (expect 123 s) as [r|] eqn:E1.
    { apply expect_length in E1. pose proof (skip_ws_length r) as W.
      destruct (expect 125 (skip_ws r)) as [r'|] eqn:E2.
      - apply expect_length in E2. apply progresses_ok; lia.
      - apply (progresses_le _ _ (skip_ws r)); [apply IHm|]; lia. }
    destruct (expect 91 s) as [r|] eqn:E2.
    { apply expect_length in E2. pose proof (skip_ws_length r) as W.
      destruct (expect 93 (skip_ws r)) as [r'|] eqn:E3.
      - apply expect_length in E3. apply progresses_ok; lia.
      - apply (progresses_le _ _ (skip_ws r)); [apply IHe|]; lia. }
    destruct (expect 34 s) as [r|] eqn:E3.
    { apply expect_length in E3.
      destruct (parse_string_chars r []) as [[str r']|] eqn:E4;
        [|apply progresses_error].
      apply parse_string_chars_length in E4. apply progresses_ok; lia. }
    destruct (literal (js "true") s) as [r|] eqn:L1.
    { apply literal_length in L1; simpl in L1. apply progresses_ok; lia. }
    destruct (literal (js "false") s) as [r|] eqn:L2.
    { apply literal_length in L2; simpl in L2. apply progresses_ok; lia. }
    destruct (literal (js "null") s) as [r|] eqn:L3.
    { apply literal_length in L3; simpl in L3. apply progresses_ok; lia. }
    destruct (parse_number s) as [[tok r]|] eqn:E5; [|apply progresses_error].
    apply parse_number_length in E5. apply progresses_ok; lia.
  - intros s acc L. simpl.
    destruct (IHv s ltac:(lia)) as [Hf Hr].
    destruct (parse_value f s) as [v r| |]; [|apply progresses_error|congruence].
    specialize (Hr v r eq_refl). pose proof (skip_ws_length r) as W.
    destruct (expect 44 (skip_ws r)) as [r'|] eqn:E1.
    { apply expect_length in E1. pose proof (skip_ws_length r') as W'.
      apply (progresses_le _ _ (skip_ws r')); [apply IHe|]; lia. }
    destruct (expect 93 (skip_ws r)) as [r'|] eqn:E2;
      [|apply progresses_error].
    apply expect_length in E2. apply progresses_ok; lia.
  - intros s acc L. simpl.
    destruct (expect 34 s) as [r|] eqn:E1; [|apply progresses_error].
    apply expect_length in E1.
    destruct (parse_string_chars r []) as [[key r1]|] eqn:E2;
      [|apply progresses_error].
    apply parse_string_chars_length in E2.
    pose proof (skip_ws_length r1) as W1.
    destruct (expect 58 (skip_ws r1)) as [r2|] eqn:E3;
      [|apply progresses_error].
    apply expect_length in E3. pose proof (skip_ws_length r2) as W2.
    destruct (IHv (skip_ws r2) ltac:(lia)) as [Hf Hr].
    destruct (parse_value f (skip_ws r2)) as [v r3| |];
      [|apply progresses_error|congruence].
    specialize (Hr v r3 eq_refl). pose proof (skip_ws_length r3) as W3.
    destruct (expect 44 (skip_ws r3)) as [r4|] eqn:E4.
    { apply expect_length in E4. pose proof (skip_ws_length r4) as W4.
      apply (progresses_le _ _ (skip_ws r4)); [apply IHm|]; lia. }
    destruct (expect 125 (skip_ws r3)) as [r4|] eqn:E5;
      [|apply progresses_error].
    apply expect_length in E5. apply progresses_ok; lia.
Qed.

(** [JSON.parse] never fails for want of fuel. *)
Lemma JSON_parse_fuel (text : jsstring) :
  parse_value (parse_fuel text) (skip_ws text) <> PFuel.
Proof.
  apply (parse_fuel_enough (parse_fuel text)).
  pose proof (skip_ws_length text). unfold parse_fuel. lia.
Qed.

(** ** The decoder *)

Lemma decode_app (d : TextDecoder) (a b : list byte) :
  decode d (a ++ b) =
  let '(d1, o1) := decode d a in
  let '(d2, o2) := decode d1 b in (d2, o1 ++ o2).
Proof.
  revert d; induction a as [|x a IH]; intros d; simpl.
  - destruct (decode d b); reflexivity.
  - destruct (decode_byte d x) as [d1 o1]. rewrite IH.
    destruct (decode d1 a) as [d2 o2], (decode d2 b) as [d3 o3].
    rewrite app_assoc; reflexivity.
Qed.

(** ** Lines *)

Lemma exists_last_or_nil {A} (l : list A) :
  l = [] \/ exists l' x, l = l' ++ [x].
Proof.
  induction l as [|x l _] using rev_ind; [left | right]; eauto.
Qed.

Lemma stripCR_snoc (s : jsstring) (x : code_unit) :
  stripCR (s ++ [x]) = if x =? CR then s else s ++ [x].
Proof.
  unfold stripCR. rewrite endsWith_snoc, removelast_last. reflexivity.
Qed.

(** Removing the carriage return of a line that has the prefix keeps the
    prefix and the payload. *)
Lemma stripCR_data (t : jsstring) :
  exists t', stripCR (js "data: " ++ t) = js "data: " ++ t'
             /\ trim t' = trim t.
Proof.
  destruct (exists_last_or_nil t) as [->|(t' & x & ->)].
  - exists []; split; reflexivity.
  - rewrite app_assoc, stripCR_snoc.
    destruct (N.eqb_spec x CR) as [->|_].
    + exists t'; split; [reflexivity|].
      symmetry; apply trim_snoc_ws; reflexivity.
    + exists (t' ++ [x]); rewrite app_assoc; split; reflexivity.
Qed.

Lemma classify_data (t : jsstring) :
  classify (js "data: " ++ t) =
  if jseqb (trim t) (js "[DONE]") then Sentinel else Event (trim t).
Proof.
  unfold classify.
  destruct (stripCR_data t) as (t' & -> & <-).
  change (startsWith (js ":") (js "data: " ++ t')) with false.
  change (startsWith (js "data: ") (js "data: " ++ t')) with true.
  change (payload (js "data: " ++ t')) with (trim t').
  assert (E : jseqb (trim (js "data: " ++ t')) [] = false).
  { apply jseqb_neq, (trim_cons_nonws 100); reflexivity. }
  rewrite orb_false_l, E. reflexivity.
Qed.

(** A line that is not passed over has the prefix, and its kind is read off
    the text behind it. *)
Lemma classify_not_ignored (line0 : jsstring) :
  classify line0 <> Ignored ->
  exists t, stripCR line0 = js "data: " ++ t
    /\ classify line0 =
       if jseqb (trim t) (js "[DONE]") then Sentinel else Event (trim t).
Proof.
  unfold classify. intros H.
  destruct (startsWith (js ":") (stripCR line0)
            || jseqb (trim (stripCR line0)) []); [congruence|].
  destruct (startsWith (js "data: ") (stripCR line0)) eqn:E;
    [|simpl in H; congruence].
  apply startsWith_prefix in E as [t E]. exists t; split; [exact E|].
  rewrite E. reflexivity.
Qed.

(** What is put back is classified as the line it came from. *)
Lemma classify_stripCR (line0 : jsstring) :
  classify line0 <> Ignored -> classify (stripCR line0) = classify line0.
Proof.
  intros H. destruct (classify_not_ignored line0 H) as (t & E & ->).
  rewrite E. apply classify_data.
Qed.

Lemma requeues_stripCR {NS : NumberSemantics} (line0 : jsstring) :
  requeues line0 = true -> requeues (stripCR line0) = true.
Proof.
  unfold requeues; intros H.
  rewrite classify_stripCR; [exact H|].
  intros E; rewrite E in H; discriminate.
Qed.

Lemma stripCR_no_LF (line0 : jsstring) :
  indexOf LF line0 = None -> indexOf LF (stripCR line0) = None.
Proof.
  destruct (exists_last_or_nil line0) as [->|(t & x & ->)]; [auto|].
  rewrite stripCR_snoc. destruct (x =? CR); [|auto].
  rewrite indexOf_app_None; tauto.
Qed.

(** ** The loop body *)

Section AssemblerProperties.
Context {NS : NumberSemantics}.

Lemma lineBody_classify (st : State) (line0 : jsstring) :
  lineBody st line0 =
  match classify line0 with
  | Ignored => (st, Continue)
  | Sentinel => (set_streamDone true st, Break)
  | Event jsonStr =>
    match tryBlock st jsonStr with
    | inr st' => (st', Continue)
    | inl _ =>
      (set_textBuffer (stripCR line0 ++ [LF] ++ textBuffer st) st, Break)
    end
  end.
Proof.
  unfold lineBody, classify, payload.
  destruct (startsWith (js ":") (stripCR line0)
            || jseqb (trim (stripCR line0)) []); [reflexivity|].
  destruct (startsWith (js "data: ") (stripCR line0)); [|reflexivity].
  simpl negb. cbv iota.
  destruct (jseqb (trim (slice_from 6 (stripCR line0))) (js "[DONE]"));
    reflexivity.
Qed.

(** The [try] block throws or not whatever the state, and when it does not
    it sets [messages] and [assistantContent] only, from their values. *)
Lemma tryBlock_inl (st : State) (jsonStr : jsstring) (e : Exn) :
  tryBlock st jsonStr = inl e ->
  throws jsonStr = true /\ forall st2, tryBlock st2 jsonStr = inl e.
Proof.
  unfold tryBlock, throws.
  destruct (JSON_parse jsonStr) as [parsed|]; [|intros [= <-]; auto].
  destruct (delta_content parsed) as [e'|delta]; [intros [= <-]; auto|].
  destruct (ToBoolean delta); [|discriminate].
  destruct (ToStringValue delta); [discriminate|].
  intros [= <-]; auto.
Qed.

Lemma tryBlock_inr (st st' : State) (jsonStr : jsstring) :
  tryBlock st jsonStr = inr st' ->
  throws jsonStr = false
  /\ exists m c,
       st' = set_messages m (set_assistantContent c st)
       /\ forall st2,
            messages st2 = messages st ->
            assistantContent st2 = assistantContent st ->
            tryBlock st2 jsonStr
            = inr (set_messages m (set_assistantContent c st2)).
Proof.
  unfold tryBlock, throws.
  destruct (JSON_parse jsonStr) as [parsed|]; [|discriminate].
  destruct (delta_content parsed) as [e'|delta]; [discriminate|].
  destruct (ToBoolean delta);
    [destruct (ToStringValue delta) as [text|]; [|discriminate]|];
    intros [= <-]; (split; [reflexivity|]).
  - do 2 eexists; split; [reflexivity|].
    intros st2 -> ->; reflexivity.
  - exists (messages st), (assistantContent st); split.
    + destruct st; reflexivity.
    + intros st2 <- <-; destruct st2; reflexivity.
Qed.

Lemma throws_tryBlock (st : State) (jsonStr : jsstring) :
  throws jsonStr = true -> exists e, tryBlock st jsonStr = inl e.
Proof.
  destruct (tryBlock st jsonStr) as [e|st'] eqn:E; [eauto|].
  apply tryBlock_inr in E as [E _]. congruence.
Qed.

(** An iteration that goes on leaves [textBuffer], [streamDone], the
    decoder and the read count alone, and does the same on any buffer. *)
Lemma lineBody_Continue (st s : State) (line0 : jsstring) :
  lineBody st line0 = (s, Continue) ->
  textBuffer s = textBuffer st /\ streamDone s = streamDone st
  /\ decoder s = decoder st /\ readCalls s = readCalls st
  /\ requeues line0 = false
  /\ forall b, lineBody (set_textBuffer b st) line0
               = (set_textBuffer b s, Continue).
Proof.
  rewrite lineBody_classify. unfold requeues.
  destruct (classify line0) as [| |jsonStr] eqn:K.
  - intros [= <-]. repeat split.
    intros b. rewrite lineBody_classify, K. reflexivity.
  - discriminate.
  - destruct (tryBlock st jsonStr) as [e|st'] eqn:E; [discriminate|].
    intros [= <-].
    apply tryBlock_inr in E as (Hthrows & m & c & -> & Hany).
    repeat split; try assumption.
    intros b. rewrite lineBody_classify, K.
    rewrite (Hany (set_textBuffer b st)) by reflexivity.
    destruct st; reflexivity.
Qed.

(** An iteration that breaks met the sentinel or put its line back, and
    does the same in any state. *)
Lemma lineBody_Break (st s : State) (line0 : jsstring) :
  lineBody st line0 = (s, Break) ->
  (classify line0 = Sentinel
   /\ forall st2, lineBody st2 line0 = (set_streamDone true st2, Break))
  \/ (requeues line0 = true
      /\ forall st2,
           lineBody st2 line0
           = (set_textBuffer (stripCR line0 ++ [LF] ++ textBuffer st2) st2,
              Break)).
Proof.
  rewrite lineBody_classify. unfold requeues.
  destruct (classify line0) as [| |jsonStr] eqn:K.
  - discriminate.
  - intros _. left; split; [reflexivity|].
    intros st2; rewrite lineBody_classify, K; reflexivity.
  - destruct (tryBlock st jsonStr) as [e|st'] eqn:E; [|discriminate].
    intros _. apply tryBlock_inl in E as [Hthrows Hany].
    right; split; [assumption|].
    intros st2; rewrite lineBody_classify, K, Hany; reflexivity.
Qed.

Lemma lineBody_requeues (st : State) (line0 : jsstring) :
  requeues line0 = true ->
  lineBody st line0
  = (set_textBuffer (stripCR line0 ++ [LF] ++ textBuffer st) st, Break).
Proof.
  unfold requeues. rewrite lineBody_classify.
  destruct (classify line0) as [| |jsonStr]; try discriminate.
  intros H. destruct (throws_tryBlock st jsonStr H) as [e ->]. reflexivity.
Qed.

(** ** The line loop *)

Lemma lineLoop_fuel_any (f1 f2 : nat) (st : State) :
  (length (textBuffer st) < f1)%nat ->
  (length (textBuffer st) < f2)%nat ->
  lineLoop_fuel f1 st = lineLoop_fuel f2 st.
Proof.
  revert f2 st; induction f1 as [|f1 IH]; intros [|f2] st H1 H2; try lia.
  simpl.
  destruct (indexOf LF (textBuffer st)) as [i|] eqn:Hi; [|reflexivity].
  destruct (indexOf_Some _ _ _ Hi) as (line & rest & Htb & Hline & <-).
  rewrite Htb in *.
  destruct (indexOf_split LF line rest Hline) as (_ & -> & ->).
  destruct (lineBody (set_textBuffer rest st) line) as [s [|]] eqn:Hb;
    [|reflexivity].
  apply lineBody_Continue in Hb as (Hs & _).
  simpl in Hs. rewrite length_app in H1, H2; simpl in H1, H2.
  apply IH; rewrite Hs; lia.
Qed.

(** The loop always has fuel left: any larger amount gives the result. *)
Lemma lineLoop_fuel_enough (fuel : nat) (st : State) :
  (length (textBuffer st) < fuel)%nat -> lineLoop_fuel fuel st = lineLoop st.
Proof.
  intros H; apply lineLoop_fuel_any; [assumption | lia].
Qed.

Lemma lineLoop_no_newline (st : State) :
  indexOf LF (textBuffer st) = None -> lineLoop st = st.
Proof.
  unfold lineLoop; simpl; intros ->; reflexivity.
Qed.

(** One turn of the loop on a buffer that starts with a complete line. *)
Lemma lineLoop_cons (st : State) (line rest : jsstring) :
  textBuffer st = line ++ LF :: rest ->
  indexOf LF line = None ->
  lineLoop st =
  match lineBody (set_textBuffer rest st) line with
  | (st2, Continue) => lineLoop st2
  | (st2, Break) => st2
  end.
Proof.
  intros Htb Hline. unfold lineLoop at 1. simpl. rewrite Htb.
  destruct (indexOf_split LF line rest Hline) as (-> & -> & ->).
  destruct (lineBody (set_textBuffer rest st) line) as [s [|]] eqn:Hb;
    [|reflexivity].
  apply lineLoop_fuel_enough.
  apply lineBody_Continue in Hb as (-> & _). simpl.
  rewrite length_app; simpl; lia.
Qed.

(** Induction along the iterations of the loop. *)
Lemma lineLoop_ind (P : State -> State -> Prop) :
  (forall st, indexOf LF (textBuffer st) = None -> P st st) ->
  (forall st line rest s,
      textBuffer st = line ++ LF :: rest -> indexOf LF line = None ->
      lineBody (set_textBuffer rest st) line = (s, Break) -> P st s) ->
  (forall st line rest s,
      textBuffer st = line ++ LF :: rest -> indexOf LF line = None ->
      lineBody (set_textBuffer rest st) line = (s, Continue) ->
      P s (lineLoop s) -> P st (lineLoop s)) ->
  forall st, P st (lineLoop st).
Proof.
  intros Hnone Hbreak Hcont st.
  remember (length (textBuffer st)) as n eqn:Hn.
  revert st Hn; induction n as [n IH] using lt_wf_ind; intros st Hn.
  destruct (indexOf LF (textBuffer st)) as [i|] eqn:Hi.
  - destruct (indexOf_Some _ _ _ Hi) as (line & rest & Htb & Hline & _).
    rewrite (lineLoop_cons st line rest Htb Hline).
    destruct (lineBody (set_textBuffer rest st) line) as [s [|]] eqn:Hb.
    + apply (Hcont st line rest s Htb Hline Hb).
      apply (IH (length (textBuffer s))); [|reflexivity].
      apply lineBody_Continue in Hb as (-> & _). simpl.
      rewrite Hn, Htb, length_app; simpl; lia.
    + apply (Hbreak st line rest s Htb Hline Hb).
  - rewrite lineLoop_no_newline by assumption. apply Hnone; assumption.
Qed.

Lemma indexOf_mid (c : code_unit) (a b : jsstring) :
  indexOf c (a ++ c :: b) <> None.
Proof.
  rewrite indexOf_app_None; simpl; rewrite N.eqb_refl.
  intros [_ H]; discriminate.
Qed.

(** More text behind the buffer: the loop does on it what it did before,
    and goes on with the new text only if it had run out of lines. *)
Lemma lineLoop_append (st : State) :
  streamDone st = false ->
  forall t,
    lineLoop (append_text st t) =
    if waiting (lineLoop st) then lineLoop (append_text (lineLoop st) t)
    else append_text (lineLoop st) t.
Proof.
  pattern st, (lineLoop st); apply lineLoop_ind; clear st.
  - intros st Hnone Hdone t. unfold waiting. rewrite Hdone, Hnone. reflexivity.
  - intros st line rest s Htb Hline Hb Hdone t.
    assert (Htb' : textBuffer (append_text st t) = line ++ LF :: (rest ++ t)).
    { simpl; rewrite Htb, <- app_assoc; reflexivity. }
    rewrite (lineLoop_cons _ line (rest ++ t) Htb' Hline).
    replace (set_textBuffer (rest ++ t) (append_text st t))
      with (set_textBuffer (rest ++ t) st) by (destruct st; reflexivity).
    destruct (lineBody_Break _ _ _ Hb) as [[_ Hany]|[_ Hany]];
      rewrite Hany in Hb |- *; injection Hb as <-.
    + unfold waiting; simpl. destruct st; reflexivity.
    + unfold waiting; simpl. rewrite andb_comm.
      destruct (indexOf LF (stripCR line ++ LF :: rest)) eqn:E;
        [|exfalso; exact (indexOf_mid _ _ _ E)].
      simpl. unfold append_text, set_textBuffer; simpl.
      rewrite <- app_assoc; reflexivity.
  - intros st line rest s Htb Hline Hb IH Hdone t.
    assert (Htb' : textBuffer (append_text st t) = line ++ LF :: (rest ++ t)).
    { simpl; rewrite Htb, <- app_assoc; reflexivity. }
    rewrite (lineLoop_cons _ line (rest ++ t) Htb' Hline).
    replace (set_textBuffer (rest ++ t) (append_text st t))
      with (set_textBuffer (rest ++ t) (set_textBuffer rest st))
      by (destruct st; reflexivity).
    destruct (lineBody_Continue _ _ _ Hb) as (Hs & Hd & _ & _ & _ & Hany).
    rewrite Hany. simpl in Hs, Hd.
    replace (set_textBuffer (rest ++ t) s) with (append_text s t)
      by (unfold append_text; rewrite Hs; reflexivity).
    apply IH. congruence.
Qed.

(** When the loop ends the state is settled. *)
Lemma lineLoop_settled (st : State) :
  streamDone st = false ->
  waiting (lineLoop st) = true
  \/ streamDone (lineLoop st) = true
  \/ requeued (textBuffer (lineLoop st)).
Proof.
  pattern st, (lineLoop st); apply lineLoop_ind; clear st.
  - intros st Hnone Hdone. left. unfold waiting. rewrite Hdone, Hnone.
    reflexivity.
  - intros st line rest s Htb Hline Hb Hdone. right.
    destruct (lineBody_Break _ _ _ Hb) as [[_ Hany]|[Hr Hany]];
      rewrite Hany in Hb; injection Hb as <-.
    + left; reflexivity.
    + right. exists (stripCR line), rest. simpl.
      auto using stripCR_no_LF, requeues_stripCR.
  - intros st line rest s Htb Hline Hb IH Hdone. apply IH.
    apply lineBody_Continue in Hb as (_ & -> & _). exact Hdone.
Qed.

(** A line that was put back is put back again, whatever text follows. *)
Lemma lineLoop_requeued (st : State) (t : jsstring) :
  requeued (textBuffer st) ->
  exists b, requeued b /\ lineLoop (append_text st t) = set_textBuffer (b ++ t) st.
Proof.
  intros (line & rest & Htb & Hline & Hr).
  exists (stripCR line ++ LF :: rest); split.
  - exists (stripCR line), rest.
    auto using stripCR_no_LF, requeues_stripCR.
  - assert (Htb' : textBuffer (append_text st t) = line ++ LF :: (rest ++ t)).
    { simpl; rewrite Htb, <- app_assoc; reflexivity. }
    rewrite (lineLoop_cons _ line (rest ++ t) Htb' Hline).
    rewrite lineBody_requeues by assumption.
    unfold append_text, set_textBuffer; simpl.
    rewrite <- app_assoc; reflexivity.
Qed.

Lemma waiting_true (st : State) :
  waiting st = true <->
  streamDone st = false /\ indexOf LF (textBuffer st) = None.
Proof.
  unfold waiting. destruct (streamDone st), (indexOf LF (textBuffer st));
    simpl; intuition discriminate.
Qed.

(** ** Feeding text *)

Lemma feedText_settled (st : State) (t : jsstring) :
  settled (feedText st t).
Proof.
  unfold feedText, settled.
  destruct (streamDone st) eqn:Hd; [auto|].
  destruct (lineLoop_settled (append_text st t) Hd) as [H|[H|H]]; auto.
  apply waiting_true in H; tauto.
Qed.

Lemma feedText_nil (st : State) :
  settled st -> shown (feedText st []) = shown st.
Proof.
  unfold feedText. destruct (streamDone st) eqn:Hd; [reflexivity|].
  intros [H|[H|H]]; [congruence| |].
  - rewrite lineLoop_no_newline; [destruct st; reflexivity|].
    simpl; rewrite app_nil_r; assumption.
  - destruct (lineLoop_requeued st [] H) as (b & _ & ->). reflexivity.
Qed.

(** Text fed in two parts shows what it shows fed at once. *)
Lemma feedText_merge (st : State) (t t' : jsstring) :
  shown (feedText (feedText st t) t') = shown (feedText st (t ++ t')).
Proof.
  unfold feedText at 2 3. destruct (streamDone st) eqn:Hd.
  - unfold feedText; rewrite Hd; reflexivity.
  - replace (append_text st (t ++ t'))
      with (append_text (append_text st t) t')
      by (unfold append_text; destruct st; simpl; rewrite app_assoc;
          reflexivity).
    rewrite (lineLoop_append (append_text st t) Hd t').
    set (r := lineLoop (append_text st t)).
    destruct (waiting r) eqn:Hw.
    + apply waiting_true in Hw as [Hr _].
      unfold feedText; rewrite Hr; reflexivity.
    + unfold feedText. destruct (streamDone r) eqn:Hr; [reflexivity|].
      destruct (lineLoop_settled (append_text st t) Hd) as [H|[H|H]];
        fold r in H; try congruence.
      destruct (lineLoop_requeued r t' H) as (b & _ & ->). reflexivity.
Qed.

(** ** The read loop *)

Lemma lineBody_retag (d : TextDecoder) (n : nat) (st : State) (line0 : jsstring) :
  lineBody (retag d n st) line0 =
  let '(s, c) := lineBody st line0 in (retag d n s, c).
Proof.
  rewrite !lineBody_classify.
  destruct (classify line0) as [| |jsonStr]; try reflexivity.
  destruct (tryBlock st jsonStr) as [e|st'] eqn:E.
  - apply tryBlock_inl in E as [_ Hany]; rewrite Hany. reflexivity.
  - apply tryBlock_inr in E as (_ & m & c & -> & Hany).
    rewrite (Hany (retag d n st)) by reflexivity. reflexivity.
Qed.

Lemma lineLoop_retag (d : TextDecoder) (n : nat) (st : State) :
  lineLoop (retag d n st) = retag d n (lineLoop st).
Proof.
  pattern st, (lineLoop st); apply lineLoop_ind; clear st.
  - intros st Hnone. apply lineLoop_no_newline. exact Hnone.
  - intros st line rest s Htb Hline Hb.
    rewrite (lineLoop_cons (retag d n st) line rest Htb Hline).
    change (set_textBuffer rest (retag d n st))
      with (retag d n (set_textBuffer rest st)).
    rewrite lineBody_retag, Hb. reflexivity.
  - intros st line rest s Htb Hline Hb IH.
    rewrite (lineLoop_cons (retag d n st) line rest Htb Hline).
    change (set_textBuffer rest (retag d n st))
      with (retag d n (set_textBuffer rest st)).
    rewrite lineBody_retag, Hb. exact IH.
Qed.

Lemma feedText_retag (d : TextDecoder) (n : nat) (st : State) (t : jsstring) :
  feedText (retag d n st) t = retag d n (feedText st t).
Proof.
  unfold feedText. change (streamDone (retag d n st)) with (streamDone st).
  destruct (streamDone st); [reflexivity|].
  change (append_text (retag d n st) t) with (retag d n (append_text st t)).
  apply lineLoop_retag.
Qed.

(** A read of a chunk feeds the text the decoder returns for it. *)
Lemma readChunk_feedText (st : State) (value : list byte) :
  streamDone st = false ->
  readChunk st value =
  retag (fst (decode (decoder st) value)) (S (readCalls st))
    (feedText st (snd (decode (decoder st) value))).
Proof.
  intros Hd. unfold readChunk, feedText. rewrite Hd.
  destruct (decode (decoder st) value) as [d text]; simpl fst; simpl snd.
  rewrite <- lineLoop_retag. reflexivity.
Qed.

Lemma settled_retag (d : TextDecoder) (n : nat) (st : State) :
  settled st -> settled (retag d n st).
Proof. intros H; exact H. Qed.

Lemma readChunk_settled (st : State) (value : list byte) :
  streamDone st = false -> settled (readChunk st value).
Proof.
  intros Hd. rewrite readChunk_feedText by assumption.
  apply settled_retag, feedText_settled.
Qed.

(** What a stream of chunks shows at its end is what its whole text shows,
    fed at once. *)
Lemma readLoop_shown (values : list (list byte)) (st : State) :
  settled st ->
  shown (snd (readLoop st (map Chunk values)))
  = shown (feedText st (snd (decode (decoder st) (concat values)))).
Proof.
  revert st; induction values as [|v values IH]; intros st Hs; simpl.
  - rewrite feedText_nil by assumption.
    destruct (streamDone st); reflexivity.
  - destruct (streamDone st) eqn:Hd.
    + unfold feedText; rewrite Hd; reflexivity.
    + rewrite IH by (apply readChunk_settled; assumption).
      rewrite readChunk_feedText by assumption.
      rewrite decode_app.
      destruct (decode (decoder st) v) as [d1 t1]; simpl.
      destruct (decode d1 (concat values)) as [d2 t2]; simpl.
      rewrite feedText_retag. rewrite <- feedText_merge.
      reflexivity.
Qed.

Lemma settled_initialState (msgs : list Message) : settled (initialState msgs).
Proof. right; left; reflexivity. Qed.

(** ** The updater *)

Lemma item_last {A} (init : list A) (m : A) :
  item (init ++ [m]) (Z.of_nat (length (init ++ [m])) - 1) = Some m.
Proof.
  unfold item. rewrite length_app; simpl.
  replace (Z.of_nat (length init + 1) - 1)%Z with (Z.of_nat (length init))
    by lia.
  destruct (Z.ltb_spec (Z.of_nat (length init)) 0); [lia|].
  rewrite Nat2Z.id, nth_error_app2, Nat.sub_diag by lia. reflexivity.
Qed.

Lemma map_from_replace_last (ac : jsstring) (init : list Message) (m : Message)
      (start k : Z) :
  k = (start + Z.of_nat (length init))%Z ->
  map_from (fun m i =>
              if (i =? k)%Z then {| role := role m; content := ac |} else m)
           start (init ++ [m])
  = init ++ [ {| role := role m; content := ac |} ].
Proof.
  revert start; induction init as [|x init IH]; intros start Hk; simpl.
  - replace (start =? k)%Z with true by (symmetry; apply Z.eqb_eq; simpl in Hk; lia).
    reflexivity.
  - replace (start =? k)%Z with false
      by (symmetry; apply Z.eqb_neq; simpl length in Hk; lia).
    rewrite IH; [reflexivity|]. simpl length in Hk. lia.
Qed.

(** The updater on an empty transcript, and on one with a last entry. *)
Lemma updater_nil (ac : jsstring) :
  updater ac [] = [ {| role := assistant; content := ac |} ].
Proof. reflexivity. Qed.

Lemma updater_snoc (ac : jsstring) (init : list Message) (m : Message) :
  updater ac (init ++ [m]) =
  if Role_eqb (role m) assistant && negb (Nat.eqb (length init) 0)
  then init ++ [ {| role := assistant; content := ac |} ]
  else init ++ [m] ++ [ {| role := assistant; content := ac |} ].
Proof.
  unfold updater. rewrite item_last.
  replace (1 <? Z.of_nat (length (init ++ [m])))%Z
    with (negb (Nat.eqb (length init) 0)).
  2:{ rewrite length_app; simpl. destruct init; simpl; [reflexivity|].
      symmetry; apply Z.ltb_lt; lia. }
  destruct (Role_eqb (role m) assistant) eqn:Hr; simpl andb.
  - destruct (Nat.eqb (length init) 0); simpl negb; cbv iota.
    + rewrite <- app_assoc; reflexivity.
    + unfold map_indexed. rewrite map_from_replace_last.
      * destruct (role m); [discriminate | reflexivity].
      * rewrite length_app; simpl; lia.
  - rewrite <- app_assoc; reflexivity.
Qed.

Lemma updater_after_user (ac : jsstring) (init : list Message) (m : Message) :
  role m = user ->
  updater ac (init ++ [m])
  = init ++ [m] ++ [ {| role := assistant; content := ac |} ].
Proof.
  intros Hm. rewrite updater_snoc, Hm. reflexivity.
Qed.

Lemma updater_after_assistant (ac : jsstring) (init : list Message) (m : Message) :
  role m = assistant -> init <> [] ->
  updater ac (init ++ [m]) = init ++ [ {| role := assistant; content := ac |} ].
Proof.
  intros Hm Hi. rewrite updater_snoc, Hm.
  destruct init; [congruence | reflexivity].
Qed.


Lemma forallb_removelast {A} (f : A -> bool) (l : list A) :
  forallb f l = true -> forallb f (removelast l) = true.
Proof.
  destruct (exists_last_or_nil l) as [->|(l' & x & ->)]; [auto|].
  rewrite removelast_last, forallb_app, andb_true_iff; tauto.
Qed.

Lemma classify_blank (line0 : jsstring) :
  forallb isWhiteSpace line0 = true -> classify line0 = Ignored.
Proof.
  intros H. unfold classify.
  assert (E : trim (stripCR line0) = []).
  { unfold trim, stripCR. rewrite trimStart_all_ws; [reflexivity|].
    destruct (endsWith [CR] line0); auto using forallb_removelast. }
  rewrite E, orb_true_r. reflexivity.
Qed.

Lemma classify_comment (line0 : jsstring) :
  startsWith (js ":") line0 = true -> classify line0 = Ignored.
Proof.
  intros H. apply startsWith_prefix in H as [t ->]. unfold classify.
  assert (E : startsWith (js ":") (stripCR (js ":" ++ t)) = true).
  { destruct (exists_last_or_nil t) as [->|(t' & x & ->)]; [reflexivity|].
    rewrite app_assoc, stripCR_snoc. destruct (x =? CR); reflexivity. }
  rewrite E. reflexivity.
Qed.

Lemma readLoop_chunks_then_reject (values : list (list byte))
      (tl : list ReadResult) (st : State) :
  readLoop st (map Chunk values ++ Rejected :: tl)
  = (if streamDone (snd (readLoop st (map Chunk values)))
     then None else Some NetworkError,
     snd (readLoop st (map Chunk values))).
Proof.
  revert st; induction values as [|v values IH]; intros st; simpl.
  - destruct (streamDone st) eqn:Hd; simpl; rewrite Hd; reflexivity.
  - destruct (streamDone st) eqn:Hd; simpl; [rewrite Hd; reflexivity|].
    apply IH.
Qed.

Lemma readLoop_chunks_return (values : list (list byte)) (st : State) :
  fst (readLoop st (map Chunk values)) = None.
Proof.
  revert st; induction values as [|v values IH]; intros st; simpl;
    destruct (streamDone st); auto.
Qed.

Lemma readLoop_exn (stream : list ReadResult) (st st' : State) (e : Exn) :
  readLoop st stream = (Some e, st') -> e = NetworkError.
Proof.
  revert st; induction stream as [|[v|] stream IH]; intros st; simpl;
    destruct (streamDone st); try discriminate.
  - apply IH.
  - intros [= <- _]; reflexivity.
Qed.

Lemma streamChat_exn (msgs : list Message) (fetched : FetchResult)
      (st : State) (e : Exn) :
  streamChat msgs fetched = (Some e, st) ->
  e = NetworkError \/ e = Error "Failed to start stream".
Proof.
  unfold streamChat. destruct fetched as [[[|] [stream|]]|]; simpl;
    try (intros [= <- _]; auto).
  intros H; left; eapply readLoop_exn; eassumption.
Qed.

(** ** The claims *)


(** C6: an extracted line that is empty (or holds white space only) or that
    begins with a colon changes nothing: the loop body leaves every part of
    the state as it was and the loop goes on with the rest of the buffer. *)
Theorem ignored_lines_change_nothing (st : State) (line0 : jsstring) :
  forallb isWhiteSpace line0 = true \/ startsWith (js ":") line0 = true ->
  lineBody st line0 = (st, Continue)
  /\ (forall rest,
        indexOf LF line0 = None ->
        lineLoop (set_textBuffer (line0 ++ LF :: rest) st)
        = lineLoop (set_textBuffer rest st)).
Proof.
  intros H.
  assert (K : classify line0 = Ignored)
    by (destruct H; auto using classify_blank, classify_comment).
  assert (B : forall s, lineBody s line0 = (s, Continue))
    by (intros s; rewrite lineBody_classify, K; reflexivity).
  split; [apply B|].
  intros rest Hline.
  rewrite (lineLoop_cons (set_textBuffer (line0 ++ LF :: rest) st)
             line0 rest eq_refl Hline), B.
  destruct st; reflexivity.
Qed.

(** C3: when the line at the head of the buffer carries the payload [DONE],
    the loop sets [streamDone] and stops there: the content and the
    transcript are as before, whatever lines follow in the buffer stay in
    it unread, and the read loop ends without a further read or change,
    whatever the stream still holds. *)
Theorem done_halts_mutation (st : State) (line rest : jsstring)
        (stream : list ReadResult) :
  textBuffer st = line ++ LF :: rest ->
  indexOf LF line = None ->
  startsWith (js "data: ") line = true ->
  payload line = js "[DONE]" ->
  lineLoop st = set_streamDone true (set_textBuffer rest st)
  /\ streamDone (lineLoop st) = true
  /\ assistantContent (lineLoop st) = assistantContent st
  /\ messages (lineLoop st) = messages st
  /\ readLoop (lineLoop st) stream = (None, lineLoop st).
Proof.
  intros Htb Hline Hprefix Hpayload.
  assert (E : lineLoop st = set_streamDone true (set_textBuffer rest st)).
  { rewrite (lineLoop_cons st line rest Htb Hline), lineBody_classify.
    apply startsWith_prefix in Hprefix as [t ->].
    rewrite classify_data.
    change (trim t) with (payload (js "data: " ++ t)).
    rewrite Hpayload. reflexivity. }
  rewrite E. repeat split.
  destruct stream; reflexivity.
Qed.

(** C4: when the response of the handshake is not a success or has no body,
    [streamChat] throws its start error at once, before any read of the
    stream, and [handleSend] then appends the fixed fallback message. *)
Theorem handshake_failure (c : UI.Component) (resp : Response) :
  ok resp = false \/ body resp = None ->
  jseqb (trim (UI.input c)) [] = false ->
  UI.isLoading c = false ->
  (forall msgs,
      streamChat msgs (Fulfilled resp)
      = (Some (Error "Failed to start stream"), initialState msgs))
  /\ (forall msgs, readCalls (snd (streamChat msgs (Fulfilled resp))) = 0%nat)
  /\ handleSend c (Fulfilled resp)
     = UI.mkComponent
         (UI.messages c ++ [ {| role := user; content := UI.input c |} ]
          ++ [fallbackMessage])
         [] false.
Proof.
  intros Hresp Hinput Hbusy.
  assert (E : forall msgs,
             streamChat msgs (Fulfilled resp)
             = (Some (Error "Failed to start stream"), initialState msgs)).
  { intros msgs. unfold streamChat.
    destruct Hresp as [-> | ->]; [reflexivity|].
    destruct (ok resp); reflexivity. }
  split; [exact E|]. split; [intros msgs; rewrite E; reflexivity|].
  unfold handleSend. rewrite Hinput, Hbusy, E. simpl.
  rewrite <- app_assoc. reflexivity.
Qed.

(** C9: every error of a send is caught by [handleSend]: one fallback
    message is appended to the transcript as the error found it, the busy
    flag that was set goes back to false, and nothing the stream had put in
    the transcript is taken out; only a failed start and a failed read can
    leave [streamChat], and a read that fails leaves the transcript of the
    same stream ending there. *)
Theorem send_errors_are_caught (c : UI.Component) :
  jseqb (trim (UI.input c)) [] = false ->
  UI.isLoading c = false ->
  UI.isLoading (beginSend c) = true
  /\ (forall fetched e st,
        streamChat (UI.messages (beginSend c)) fetched = (Some e, st) ->
        handleSend c fetched
        = UI.mkComponent (messages st ++ [fallbackMessage]) [] false
        /\ (e = NetworkError \/ e = Error "Failed to start stream"))
  /\ (forall values tl,
        streamDone
          (snd (streamChat (UI.messages (beginSend c)) (streamOf values)))
        = false ->
        handleSend c
          (Fulfilled
             (mkResponse true (Some (map Chunk values ++ Rejected :: tl))))
        = UI.mkComponent
            (UI.messages (handleSend c (streamOf values)) ++ [fallbackMessage])
            [] false).
Proof.
  intros Hinput Hbusy. split; [reflexivity|]. split.
  - intros fetched e st H. split; [|eapply streamChat_exn; eassumption].
    unfold handleSend. rewrite Hinput, Hbusy, H. reflexivity.
  - intros values tl Hd. unfold handleSend. rewrite Hinput, Hbusy.
    unfold streamOf, streamChat in *. simpl ok in *; simpl body in *.
    cbv iota in *.
    rewrite readLoop_chunks_then_reject, Hd.
    pose proof (readLoop_chunks_return values
                  (initialState (UI.messages (beginSend c)))) as E.
    destruct (readLoop (initialState (UI.messages (beginSend c)))
                (map Chunk values)) as [o s].
    simpl in E; subst o. reflexivity.
Qed.

Lemma suspensions_settled (stream : list ReadResult) (st s : State) :
  settled st -> In s (suspensions st stream) ->
  settled s /\ streamDone s = false.
Proof.
  revert st; induction stream as [|[v|] stream IH]; intros st Hst; simpl;
    destruct (streamDone st) eqn:Hd; simpl; try tauto;
    try (intros [<-|[]]; auto).
  intros [<-|H]; [auto|].
  apply (IH (readChunk st v)); [apply readChunk_settled|]; assumption.
Qed.

(** C8 (amended): in every state in which the read loop waits for a read,
    [textBuffer] either holds no newline, or starts with a line that the
    [catch] put back, followed by its newline. *)
Theorem buffer_between_reads (msgs : list Message) (stream : list ReadResult)
        (st : State) :
  In st (suspensions (initialState msgs) stream) ->
  indexOf LF (textBuffer st) = None \/ requeued (textBuffer st).
Proof.
  intros H.
  destruct (suspensions_settled stream _ st (settled_initialState msgs) H)
    as [[Hs|Hs] Hd]; [congruence | exact Hs].
Qed.

(** C2: however the bytes of a stream are cut into chunks, the assembler ends
    with the same assistant content and the same transcript. *)
Theorem chunk_boundary_invariance (msgs : list Message)
        (values1 values2 : list (list byte)) :
  concat values1 = concat values2 ->
  assistantContent (snd (streamChat msgs (streamOf values1)))
  = assistantContent (snd (streamChat msgs (streamOf values2)))
  /\ messages (snd (streamChat msgs (streamOf values1)))
     = messages (snd (streamChat msgs (streamOf values2))).
Proof.
  intros H.
  assert (E : shown (snd (streamChat msgs (streamOf values1)))
              = shown (snd (streamChat msgs (streamOf values2)))).
  { unfold streamChat, streamOf; simpl.
    rewrite !readLoop_shown by apply settled_initialState.
    rewrite H. reflexivity. }
  unfold shown in E. injection E as E1 E2. auto.
Qed.

Lemma lineBody_textBuffer (s : State) (line0 : jsstring) :
  textBuffer (fst (lineBody s line0)) <> textBuffer s -> requeues line0 = true.
Proof.
  rewrite lineBody_classify. unfold requeues.
  destruct (classify line0) as [| |jsonStr]; simpl; try congruence.
  destruct (tryBlock s jsonStr) as [e|s'] eqn:E.
  - apply tryBlock_inl in E as [E _]. auto.
  - apply tryBlock_inr in E as (_ & m & c & -> & _). simpl. congruence.
Qed.

(** Whatever the line loop does, the text after the last newline stays at
    the end of [textBuffer] as it is. *)
Lemma lineLoop_unfinishedLine (st : State) :
  unfinishedLine (textBuffer (lineLoop st)) = unfinishedLine (textBuffer st).
Proof.
  pattern st, (lineLoop st); apply lineLoop_ind; clear st.
  - reflexivity.
  - intros st line rest s Htb Hline Hb. rewrite Htb, unfinishedLine_app.
    destruct (lineBody_Break _ _ _ Hb) as [[_ Hany]|[_ Hany]];
      rewrite Hany in Hb; injection Hb as <-; simpl.
    + reflexivity.
    + apply unfinishedLine_app.
  - intros st line rest s Htb Hline Hb IH. rewrite IH, Htb, unfinishedLine_app.
    apply lineBody_Continue in Hb as (-> & _). reflexivity.
Qed.

Lemma readChunk_textBuffer (st : State) (value : list byte) :
  textBuffer (readChunk st value)
  = textBuffer
      (lineLoop (append_text st (snd (decode (decoder st) value)))).
Proof.
  unfold readChunk.
  destruct (decode (decoder st) value) as [d text]; simpl snd.
  change (set_textBuffer (textBuffer st ++ text) (set_decoder d (count_read st)))
    with (retag d (S (readCalls st)) (append_text st text)).
  rewrite lineLoop_retag. reflexivity.
Qed.

(** Two reads leave the state one read of both chunks leaves, counted once
    more, when the first of them ends with the loop waiting for the rest of
    a line. *)
Lemma readChunk_twice (st : State) (v1 v2 : list byte) :
  streamDone st = false ->
  waiting (readChunk st v1) = true ->
  readChunk (readChunk st v1) v2 = count_read (readChunk st (v1 ++ v2)).
Proof.
  intros Hd Hw.
  assert (Hd1 : streamDone (readChunk st v1) = false)
    by (apply waiting_true in Hw; tauto).
  rewrite (readChunk_feedText st (v1 ++ v2)) by assumption.
  rewrite (readChunk_feedText (readChunk st v1) v2) by assumption.
  rewrite readChunk_feedText in Hw |- * by assumption.
  simpl decoder. simpl readCalls. rewrite decode_app.
  destruct (decode (decoder st) v1) as [d1 t1]; simpl fst in *; simpl snd in *.
  destruct (decode d1 v2) as [d2 t2]; simpl fst; simpl snd.
  rewrite feedText_retag.
  change (waiting (feedText st t1) = true) in Hw.
  unfold feedText in Hw |- *. rewrite Hd in Hw |- *.
  replace (append_text st (t1 ++ t2)) with (append_text (append_text st t1) t2)
    by (unfold append_text; destruct st; simpl; rewrite app_assoc;
        reflexivity).
  rewrite (lineLoop_append (append_text st t1) Hd t2), Hw.
  apply waiting_true in Hw as [-> _]. reflexivity.
Qed.

(** Two reads show what one read of both chunks shows. *)
Lemma readLoop_two_chunks (st : State) (v1 v2 : list byte) :
  shown (snd (readLoop st [Chunk v1; Chunk v2]))
  = shown (snd (readLoop st [Chunk (v1 ++ v2)])).
Proof.
  simpl. destruct (streamDone st) eqn:Hd; [reflexivity|].
  assert (E2 : shown (snd (if streamDone (readChunk st (v1 ++ v2))
                           then (@None Exn, readChunk st (v1 ++ v2))
                           else (None, count_read (readChunk st (v1 ++ v2)))))
               = shown (readChunk st (v1 ++ v2)))
    by (destruct (streamDone (readChunk st (v1 ++ v2))); reflexivity).
  rewrite E2. clear E2.
  rewrite (readChunk_feedText st (v1 ++ v2)) by assumption.
  rewrite decode_app.
  destruct (streamDone (readChunk st v1)) eqn:Hd1.
  - simpl snd. revert Hd1. rewrite readChunk_feedText by assumption.
    destruct (decode (decoder st) v1) as [d1 t1]; simpl fst; simpl snd.
    destruct (decode d1 v2) as [d2 t2]; simpl fst; simpl snd.
    intros Hd1. change (streamDone (feedText st t1) = true) in Hd1.
    change (shown (feedText st t1) = shown (feedText st (t1 ++ t2))).
    rewrite <- feedText_merge. unfold feedText at 2. rewrite Hd1. reflexivity.
  - assert (E3 : shown (snd (if streamDone (readChunk (readChunk st v1) v2)
                             then (@None Exn, readChunk (readChunk st v1) v2)
                             else (None,
                                   count_read (readChunk (readChunk st v1) v2))))
                 = shown (readChunk (readChunk st v1) v2))
      by (destruct (streamDone (readChunk (readChunk st v1) v2)); reflexivity).
    rewrite E3. clear E3.
    rewrite (readChunk_feedText (readChunk st v1) v2) by assumption.
    rewrite (readChunk_feedText st v1) by assumption.
    simpl decoder.
    destruct (decode (decoder st) v1) as [d1 t1]; simpl fst; simpl snd.
    destruct (decode d1 v2) as [d2 t2]; simpl fst; simpl snd.
    rewrite feedText_retag.
    change (shown (feedText (feedText st t1) t2)
            = shown (feedText st (t1 ++ t2))).
    apply feedText_merge.
Qed.

(** C1 (amended): a line cut by the end of a read waits in [textBuffer]
    for the rest of it.  Whatever else the read does, the text after the
    last newline received stays at the end of [textBuffer] as it came.
    When the line loop of that read was not stopped by the sentinel or by
    putting an earlier line back, [textBuffer] is that text and nothing
    else, no newline is added, and the next read leaves the state a single
    read of both chunks leaves, one read call apart; when the text read so
    far holds no newline at all, the read only appends.  In every case two
    reads show the content and the transcript that one read of both chunks
    shows.  A line is put back, without its carriage return and followed by
    a newline, with a [break] of the line loop, when it is a complete line
    on which the [try] block throws, and only then does the loop body change
    [textBuffer]. *)
Theorem split_line_is_buffered (st : State) (v1 v2 : list byte) :
  streamDone st = false ->
  unfinishedLine (textBuffer (readChunk st v1))
  = unfinishedLine (textBuffer st ++ snd (decode (decoder st) v1))
  /\ (waiting (readChunk st v1) = true ->
      textBuffer (readChunk st v1)
      = unfinishedLine (textBuffer st ++ snd (decode (decoder st) v1))
      /\ readChunk (readChunk st v1) v2
         = count_read (readChunk st (v1 ++ v2)))
  /\ (indexOf LF (textBuffer st ++ snd (decode (decoder st) v1)) = None ->
      readChunk st v1
      = retag (fst (decode (decoder st) v1)) (S (readCalls st))
          (append_text st (snd (decode (decoder st) v1))))
  /\ shown (snd (readLoop st [Chunk v1; Chunk v2]))
     = shown (snd (readLoop st [Chunk (v1 ++ v2)]))
  /\ (forall s line0,
        requeues line0 = true ->
        lineBody s line0
        = (set_textBuffer (stripCR line0 ++ [LF] ++ textBuffer s) s, Break))
  /\ (forall s line0,
        textBuffer (fst (lineBody s line0)) <> textBuffer s ->
        requeues line0 = true).
Proof.
  intros Hd.
  assert (E : unfinishedLine (textBuffer (readChunk st v1))
              = unfinishedLine (textBuffer st ++ snd (decode (decoder st) v1))).
  { rewrite readChunk_textBuffer. apply lineLoop_unfinishedLine. }
  split; [exact E|]. split; [|split; [|split; [|split]]].
  - intros Hw. split; [|apply readChunk_twice; assumption].
    rewrite <- E. symmetry. apply unfinishedLine_none.
    apply waiting_true in Hw; tauto.
  - intros Hnone. rewrite readChunk_feedText by assumption.
    unfold feedText. rewrite Hd.
    rewrite lineLoop_no_newline; [reflexivity | exact Hnone].
  - apply readLoop_two_chunks.
  - intros s line0; apply lineBody_requeues.
  - apply lineBody_textBuffer.
Qed.

Lemma lineBody_stringDelta (st : State) (line0 jsonStr c : jsstring) :
  classify line0 = Event jsonStr ->
  stringDelta jsonStr = Some c ->
  lineBody st line0
  = (set_messages (updater (assistantContent st ++ c) (messages st))
       (set_assistantContent (assistantContent st ++ c) st), Continue).
Proof.
  intros K D. rewrite lineBody_classify, K. unfold tryBlock.
  unfold stringDelta in D.
  destruct (JSON_parse jsonStr) as [parsed|]; [|discriminate].
  destruct (delta_content parsed) as [e|[[| | | [|x s] | |]|]];
    try discriminate.
  injection D as <-. reflexivity.
Qed.

(** C5: with a transcript that ends with the user's message, the stream of
    the two deltas [Hel] and [lo] and the sentinel, cut into chunks in any
    way, leaves the transcript with exactly one more entry, the assistant's
    message [Hello]; [streamChat] returns without an error. *)
Theorem hello_scenario (prev : list Message) (userMessage : Message)
        (values : list (list byte)) :
  role userMessage = user ->
  concat values = helloStream ->
  messages (snd (streamChat (prev ++ [userMessage]) (streamOf values)))
  = prev ++ [userMessage] ++ [ {| role := assistant; content := js "Hello" |} ]
  /\ assistantContent
       (snd (streamChat (prev ++ [userMessage]) (streamOf values)))
     = js "Hello"
  /\ fst (streamChat (prev ++ [userMessage]) (streamOf values)) = None.
Proof.
  intros Hrole Hvalues.
  assert (E : shown (snd (streamChat (prev ++ [userMessage]) (streamOf values)))
              = (prev ++ [userMessage]
                 ++ [ {| role := assistant; content := js "Hello" |} ],
                 js "Hello")).
  2:{ unfold shown in E. injection E as E1 E2.
      repeat split; try assumption. apply readLoop_chunks_return. }
  unfold streamChat, streamOf; simpl ok; simpl body; cbv iota.
  rewrite readLoop_shown by apply settled_initialState.
  rewrite Hvalues.
  set (line1 := jsq "data: {'choices':[{'delta':{'content':'Hel'}}]}").
  set (line2 := jsq "data: {'choices':[{'delta':{'content':'lo'}}]}").
  set (line3 := js "data: [DONE]").
  replace (snd (decode (decoder (initialState (prev ++ [userMessage])))
                  helloStream))
    with (line1 ++ LF :: line2 ++ LF :: line3 ++ LF :: [])
    by (vm_compute; reflexivity).
  unfold feedText. simpl streamDone. cbv iota.
  rewrite (lineLoop_cons _ line1 (line2 ++ LF :: line3 ++ LF :: []))
    by reflexivity.
  rewrite (lineBody_stringDelta _ line1
             (jsq "{'choices':[{'delta':{'content':'Hel'}}]}") (js "Hel"))
    by (vm_compute; reflexivity).
  rewrite (lineLoop_cons _ line2 (line3 ++ LF :: [])) by reflexivity.
  rewrite (lineBody_stringDelta _ line2
             (jsq "{'choices':[{'delta':{'content':'lo'}}]}") (js "lo"))
    by (vm_compute; reflexivity).
  rewrite (lineLoop_cons _ line3 []) by reflexivity.
  rewrite lineBody_classify.
  replace (classify line3) with Sentinel by (vm_compute; reflexivity).
  unfold shown. simpl messages. simpl assistantContent.
  rewrite updater_after_user by assumption.
  rewrite (app_assoc prev), updater_after_assistant;
    [|reflexivity | destruct prev; discriminate].
  rewrite <- app_assoc. reflexivity.
Qed.

(** A payload that parses to a value other than [null] and carries no
    delta, or a falsy one, leaves the whole state as it is. *)
Lemma payload_without_delta (st : State) (line0 jsonStr : jsstring)
      (parsed : JSON) (delta : JSValue) :
  classify line0 = Event jsonStr ->
  JSON_parse jsonStr = Some parsed ->
  delta_content parsed = inr delta ->
  ToBoolean delta = false ->
  lineBody st line0 = (st, Continue).
Proof.
  intros K P D B. rewrite lineBody_classify, K. unfold tryBlock.
  rewrite P, D, B. reflexivity.
Qed.

(** C7: the payload [null] parses, and holds no delta, but the plain access
    [parsed.choices] throws on it: the [catch] puts the line back and
    breaks, and from then on nothing of the stream reaches the content or
    the transcript. *)
Theorem null_payload_is_requeued (st : State) (msgs : list Message)
        (values : list (list byte)) :
  JSON_parse (js "null") = Some JNull
  /\ lineBody st (js "data: null")
     = (set_textBuffer (js "data: null" ++ [LF] ++ textBuffer st) st, Break)
  /\ shown (snd (streamChat msgs
                   (streamOf ((bytes "data: null" ++ [x0a]) :: values))))
     = (msgs, []).
Proof.
  split; [reflexivity|]. split.
  - apply (lineBody_requeues st (js "data: null")). reflexivity.
  - change (shown (snd (readLoop (initialState msgs)
                          (map Chunk ((bytes "data: null" ++ [x0a]) :: values))))
            = (msgs, [])).
    rewrite readLoop_shown by apply settled_initialState.
    change (concat ((bytes "data: null" ++ [x0a]) :: values))
      with ((bytes "data: null" ++ [x0a]) ++ concat values).
    rewrite decode_app.
    replace (decode (decoder (initialState msgs)) (bytes "data: null" ++ [x0a]))
      with (mkTextDecoder 0 0 0 128 191 true, js "data: null" ++ [LF])
      by (vm_compute; reflexivity).
    destruct (decode _ (concat values)) as [d2 t2]. simpl snd.
    unfold feedText. simpl streamDone. cbv iota.
    rewrite (lineLoop_cons _ (js "data: null") t2) by reflexivity.
    rewrite lineBody_requeues by reflexivity.
    reflexivity.
Qed.

(** Once a line has been put back, no chunk that follows changes the
    content or the transcript: the same line is extracted, thrown on and
    put back at every read. *)
Theorem requeue_stalls_stream (st : State) (values : list (list byte)) :
  streamDone st = false ->
  requeued (textBuffer st) ->
  shown (snd (readLoop st (map Chunk values))) = shown st.
Proof.
  intros Hd Hr. rewrite readLoop_shown by (right; right; exact Hr).
  unfold feedText; rewrite Hd.
  destruct (lineLoop_requeued st (snd (decode (decoder st) (concat values))) Hr)
    as (b & _ & ->).
  reflexivity.
Qed.

(** The line loop is the [while] of the source: it ends when the buffer
    holds no newline or the body breaks, and otherwise goes on from the
    state the body left; the fuel of its definition never runs out. *)
Theorem line_loop_equation (st : State) :
  lineLoop st =
  match indexOf LF (textBuffer st) with
  | None => st
  | Some newlineIndex =>
    match lineBody
            (set_textBuffer (slice_from (newlineIndex + 1) (textBuffer st)) st)
            (slice_to newlineIndex (textBuffer st)) with
    | (st2, Continue) => lineLoop st2
    | (st2, Break) => st2
    end
  end.
Proof.
  destruct (indexOf LF (textBuffer st)) as [i|] eqn:Hi;
    [|apply lineLoop_no_newline; assumption].
  destruct (indexOf_Some _ _ _ Hi) as (line & rest & Htb & Hline & <-).
  rewrite (lineLoop_cons st line rest Htb Hline), Htb.
  destruct (indexOf_split LF line rest Hline) as (_ & -> & ->).
  reflexivity.
Qed.

(** ** What the loops keep *)

(** A property of the transcript and the content that the [try] block keeps
    is kept by the loop body, the line loop, a read and the read loop. *)
Section Kept.
Variable P : list Message * jsstring -> Prop.
Hypothesis tryBlock_keeps :
  forall st jsonStr st',
    tryBlock st jsonStr = inr st' -> P (shown st) -> P (shown st').

Lemma lineBody_keeps (st : State) (line0 : jsstring) :
  P (shown st) -> P (shown (fst (lineBody st line0))).
Proof.
  intros H. rewrite lineBody_classify.
  destruct (classify line0) as [| |jsonStr]; simpl; try exact H.
  destruct (tryBlock st jsonStr) as [e|st'] eqn:E; simpl; [exact H|].
  eapply tryBlock_keeps; eassumption.
Qed.

Lemma lineLoop_keeps (st : State) : P (shown st) -> P (shown (lineLoop st)).
Proof.
  pattern st, (lineLoop st); apply lineLoop_ind; clear st.
  - auto.
  - intros st line rest s _ _ Hb H.
    change s with (fst (s, Break)). rewrite <- Hb.
    apply lineBody_keeps. exact H.
  - intros st line rest s _ _ Hb IH H. apply IH.
    change s with (fst (s, Continue)). rewrite <- Hb.
    apply lineBody_keeps. exact H.
Qed.

Lemma readChunk_keeps (st : State) (value : list byte) :
  P (shown st) -> P (shown (readChunk st value)).
Proof.
  intros H. unfold readChunk.
  destruct (decode (decoder st) value) as [d text].
  apply lineLoop_keeps. exact H.
Qed.

Lemma readLoop_keeps (stream : list ReadResult) (st : State) :
  P (shown st) -> P (shown (snd (readLoop st stream))).
Proof.
  revert st; induction stream as [|[v|] stream IH]; intros st H; simpl;
    destruct (streamDone st); simpl; auto.
  apply IH, readChunk_keeps, H.
Qed.

Lemma suspensions_keep (stream : list ReadResult) (st s : State) :
  P (shown st) -> In s (suspensions st stream) -> P (shown s).
Proof.
  revert st; induction stream as [|[v|] stream IH]; intros st H; simpl;
    destruct (streamDone st); simpl; try tauto;
    try (intros [<-|[]]; exact H).
  intros [<-|Hs]; [exact H|].
  apply (IH (readChunk st v)); [apply readChunk_keeps|]; assumption.
Qed.

Lemma streamChat_keeps (msgs : list Message) (fetched : FetchResult) :
  P (msgs, []) -> P (shown (snd (streamChat msgs fetched))).
Proof.
  intros H. unfold streamChat.
  destruct fetched as [[[|] [stream|]]|]; simpl; try exact H.
  apply readLoop_keeps. exact H.
Qed.

End Kept.

(** What the [try] block does to the transcript and the content. *)
Lemma tryBlock_applyDelta (st : State) (jsonStr : jsstring) :
  match JSON_parse jsonStr with
  | None => exists e, tryBlock st jsonStr = inl e
  | Some parsed =>
    match delta_content parsed with
    | inl _ => exists e, tryBlock st jsonStr = inl e
    | inr delta =>
      match applyDelta delta (shown st) with
      | None => exists e, tryBlock st jsonStr = inl e
      | Some sh =>
        exists st', tryBlock st jsonStr = inr st' /\ shown st' = sh
      end
    end
  end.
Proof.
  unfold tryBlock, applyDelta.
  destruct (JSON_parse jsonStr) as [parsed|]; [|eauto].
  destruct (delta_content parsed) as [e|delta]; [eauto|].
  destruct (ToBoolean delta);
    [destruct (ToStringValue delta) as [text|]; [|eauto]|];
    eexists; split; reflexivity.
Qed.

Lemma tryBlock_shown (st st' : State) (jsonStr : jsstring) :
  tryBlock st jsonStr = inr st' ->
  exists delta, applyDelta delta (shown st) = Some (shown st').
Proof.
  intros H. pose proof (tryBlock_applyDelta st jsonStr) as A.
  destruct (JSON_parse jsonStr) as [parsed|];
    [|destruct A as [e A]; congruence].
  destruct (delta_content parsed) as [e|delta];
    [destruct A as [e' A]; congruence|].
  exists delta.
  destruct (applyDelta delta (shown st)) as [sh|];
    [|destruct A as [e A]; congruence].
  destruct A as (s & A & E). congruence.
Qed.

Lemma applyDelta_inSync (prev : list Message) (userMessage : Message)
      (delta : JSValue) (msgs : list Message) (ac : jsstring)
      (sh : list Message * jsstring) :
  role userMessage = user ->
  (msgs = prev ++ [userMessage] /\ ac = []
   \/ msgs = (prev ++ [userMessage]) ++ [ {| role := assistant; content := ac |} ]) ->
  applyDelta delta (msgs, ac) = Some sh ->
  (fst sh = prev ++ [userMessage] /\ snd sh = []
   \/ fst sh = (prev ++ [userMessage])
               ++ [ {| role := assistant; content := snd sh |} ]).
Proof.
  intros Hu H. unfold applyDelta. simpl fst; simpl snd.
  destruct (ToBoolean delta); [|intros [= <-]; exact H].
  destruct (ToStringValue delta) as [text|]; [|discriminate].
  intros [= <-]. simpl. right.
  destruct H as [[-> ->]| ->].
  - rewrite updater_after_user by assumption. rewrite app_assoc. reflexivity.
  - rewrite updater_after_assistant;
      [reflexivity | reflexivity | destruct prev; discriminate].
Qed.

Lemma streamChat_inSync (prev : list Message) (userMessage : Message)
      (fetched : FetchResult) :
  role userMessage = user ->
  inSync (prev ++ [userMessage])
    (snd (streamChat (prev ++ [userMessage]) fetched)).
Proof.
  intros Hu.
  apply (streamChat_keeps
           (fun sh => (fst sh = prev ++ [userMessage] /\ snd sh = [])
                      \/ fst sh = (prev ++ [userMessage])
                           ++ [ {| role := assistant; content := snd sh |} ])).
  - intros st j st' E H. destruct (tryBlock_shown _ _ _ E) as [delta D].
    destruct (shown st) as [msgs ac].
    eapply applyDelta_inSync; eassumption.
  - left; split; reflexivity.
Qed.

Lemma suspensions_inSync (prev : list Message) (userMessage : Message)
      (stream : list ReadResult) (s : State) :
  role userMessage = user ->
  In s (suspensions (initialState (prev ++ [userMessage])) stream) ->
  inSync (prev ++ [userMessage]) s.
Proof.
  intros Hu.
  apply (suspensions_keep
           (fun sh => (fst sh = prev ++ [userMessage] /\ snd sh = [])
                      \/ fst sh = (prev ++ [userMessage])
                           ++ [ {| role := assistant; content := snd sh |} ])).
  - intros st j st' E H. destruct (tryBlock_shown _ _ _ E) as [delta D].
    destruct (shown st) as [msgs ac].
    eapply applyDelta_inSync; eassumption.
  - left; split; reflexivity.
Qed.

(** ** Further properties of the chat *)


(** A send that goes through keeps every earlier entry of the transcript,
    puts the user's message behind them, and adds at most two entries
    after it, both the assistant's (the reply and the fallback); it ends
    with the input empty and the busy flag off. *)
Theorem send_keeps_history (c : UI.Component) (fetched : FetchResult) :
  sendDisabled c = false ->
  exists tail,
    UI.messages (handleSend c fetched)
    = UI.messages c ++ [ {| role := user; content := UI.input c |} ] ++ tail
    /\ (length tail <= 2)%nat
    /\ Forall (fun m => role m = assistant) tail
    /\ UI.input (handleSend c fetched) = []
    /\ UI.isLoading (handleSend c fetched) = false.
Proof.
  unfold sendDisabled. rewrite orb_false_iff. intros [Hbusy Hinput].
  unfold handleSend. rewrite Hinput, Hbusy. simpl orb. cbv iota.
  pose proof (streamChat_inSync (UI.messages c)
                {| role := user; content := UI.input c |} fetched eq_refl) as S.
  change (UI.messages (beginSend c))
    with (UI.messages c ++ [ {| role := user; content := UI.input c |} ]).
  destruct (streamChat (UI.messages c ++ [ {| role := user; content := UI.input c |} ])
              fetched) as [thrown st].
  simpl in S. unfold settleSend. simpl.
  destruct S as [[-> _]| ->]; destruct thrown as [e|];
    [ exists [fallbackMessage]
    | exists []
    | exists [ {| role := assistant; content := assistantContent st |};
               fallbackMessage ]
    | exists [ {| role := assistant; content := assistantContent st |} ] ];
    (split; [simpl; rewrite <- ?app_assoc; reflexivity|]);
    (split; [simpl; lia|]);
    (split; [repeat constructor|]); split; reflexivity.
Qed.

(** The reply only grows: what a read, or the rest of the stream, leaves in
    [assistantContent] starts with what was there before, so text that was
    shown is never taken back or rewritten. *)
Theorem content_only_grows (st : State) :
  (forall value,
      exists added,
        assistantContent (readChunk st value) = assistantContent st ++ added)
  /\ (forall stream,
        exists added,
          assistantContent (snd (readLoop st stream))
          = assistantContent st ++ added)
  /\ (forall stream s,
        In s (suspensions st stream) ->
        exists added, assistantContent s = assistantContent st ++ added).
Proof.
  assert (K : forall s j s',
             tryBlock s j = inr s' ->
             (exists added, snd (shown s) = assistantContent st ++ added) ->
             exists added, snd (shown s') = assistantContent st ++ added).
  { intros s j s' E [added H].
    destruct (tryBlock_shown _ _ _ E) as [delta D].
    unfold applyDelta in D. destruct (ToBoolean delta);
      [destruct (ToStringValue delta) as [text|]; [|discriminate]|];
      apply (f_equal (option_map snd)) in D; simpl in D; injection D as D;
      simpl in *; rewrite <- D; [|eauto].
    rewrite H, <- app_assoc. eauto. }
  assert (I : exists added, snd (shown st) = assistantContent st ++ added)
    by (exists []; symmetry; apply app_nil_r).
  split; [|split].
  - intros value.
    exact (readChunk_keeps
             (fun sh => exists added, snd sh = assistantContent st ++ added)
             K st value I).
  - intros stream.
    exact (readLoop_keeps
             (fun sh => exists added, snd sh = assistantContent st ++ added)
             K stream st I).
  - intros stream s.
    exact (suspensions_keep
             (fun sh => exists added, snd sh = assistantContent st ++ added)
             K stream st s I).
Qed.

Lemma completeLines_from_none (cur s : jsstring) :
  indexOf LF s = None -> completeLines_from cur s = [].
Proof.
  revert cur; induction s as [|x s IH]; intros cur; simpl; [reflexivity|].
  destruct (x =? LF); [discriminate|].
  destruct (indexOf LF s); [discriminate|]. auto.
Qed.

Lemma completeLines_from_cons (cur line rest : jsstring) :
  indexOf LF line = None ->
  completeLines_from cur (line ++ LF :: rest)
  = (rev cur ++ line) :: completeLines rest.
Proof.
  revert cur; induction line as [|x line IH]; intros cur; simpl.
  - intros _. rewrite ?N.eqb_refl, app_nil_r. reflexivity.
  - destruct (x =? LF); [discriminate|].
    destruct (indexOf LF line); [discriminate|]. intros _.
    rewrite IH by reflexivity. simpl. rewrite <- app_assoc. reflexivity.
Qed.

Lemma completeLines_cons (line rest : jsstring) :
  indexOf LF line = None ->
  completeLines (line ++ LF :: rest) = line :: completeLines rest.
Proof. apply (completeLines_from_cons []). Qed.

(** The line loop, on what is shown, is [shownAfter] over the complete
    lines of the buffer. *)
Lemma lineLoop_shownAfter (st : State) :
  shown (lineLoop st) = shownAfter (completeLines (textBuffer st)) (shown st).
Proof.
  pattern st, (lineLoop st); apply lineLoop_ind; clear st.
  - intros st Hnone. unfold completeLines.
    rewrite completeLines_from_none by assumption. reflexivity.
  - intros st line rest s Htb Hline Hb.
    rewrite Htb, completeLines_cons by assumption. simpl.
    rewrite lineBody_classify in Hb.
    destruct (classify line) as [| |jsonStr]; [discriminate| |].
    + injection Hb as <-. reflexivity.
    + pose proof (tryBlock_applyDelta (set_textBuffer rest st) jsonStr) as A.
      destruct (tryBlock (set_textBuffer rest st) jsonStr) as [e|st'] eqn:E;
        [|discriminate].
      injection Hb as <-.
      destruct (JSON_parse jsonStr) as [parsed|]; [|reflexivity].
      destruct (delta_content parsed) as [e'|delta]; [reflexivity|].
      change (shown (set_textBuffer rest st)) with (shown st) in A.
      destruct (applyDelta delta (shown st)) as [sh|]; [|reflexivity].
      destruct A as (s' & A & _). discriminate.
  - intros st line rest s Htb Hline Hb IH.
    rewrite Htb, completeLines_cons by assumption. simpl.
    rewrite IH. clear IH.
    destruct (lineBody_Continue _ _ _ Hb) as (Hs & _). simpl in Hs.
    rewrite Hs. rewrite lineBody_classify in Hb.
    destruct (classify line) as [| |jsonStr]; [|discriminate|].
    + injection Hb as <-. reflexivity.
    + pose proof (tryBlock_applyDelta (set_textBuffer rest st) jsonStr) as A.
      destruct (tryBlock (set_textBuffer rest st) jsonStr) as [e|st'] eqn:E;
        [discriminate|].
      injection Hb as <-.
      destruct (JSON_parse jsonStr) as [parsed|];
        [|destruct A as [e A]; discriminate].
      destruct (delta_content parsed) as [e'|delta];
        [destruct A as [e A]; discriminate|].
      change (shown (set_textBuffer rest st)) with (shown st) in A.
      destruct (applyDelta delta (shown st)) as [sh|];
        [|destruct A as [e A]; discriminate].
      destruct A as (s' & A & Sh). injection A as <-. rewrite Sh.
      reflexivity.
Qed.

(** The assembler is a fold over lines: whatever the chunking, the
    transcript and the content a stream ends with are those of the
    complete lines of its decoded text, taken in order up to the sentinel
    or the first line the [try] block throws on; the text behind the last
    newline takes no part. *)
Theorem stream_is_fold_of_lines (msgs : list Message)
        (values : list (list byte)) :
  shown (snd (streamChat msgs (streamOf values)))
  = shownAfter
      (completeLines (snd (decode newTextDecoder (concat values))))
      (msgs, []).
Proof.
  unfold streamChat, streamOf; simpl ok; simpl body; cbv iota.
  rewrite readLoop_shown by apply settled_initialState.
  unfold feedText. simpl streamDone. cbv iota.
  rewrite lineLoop_shownAfter. reflexivity.
Qed.

Lemma feedText_no_newline (st : State) (t : jsstring) :
  settled st -> indexOf LF t = None -> shown (feedText st t) = shown st.
Proof.
  intros Hs Ht. unfold feedText.
  destruct (streamDone st) eqn:Hd; [reflexivity|].
  destruct Hs as [H|[H|H]]; [congruence| |].
  - rewrite lineLoop_no_newline; [reflexivity|].
    simpl. apply indexOf_app_None; auto.
  - destruct (lineLoop_requeued st t H) as (b & _ & ->). reflexivity.
Qed.

(** A last chunk whose text holds no newline changes nothing of what is
    shown: a stream that ends without a final newline loses its last
    line. *)
Theorem unterminated_tail_is_dropped (msgs : list Message)
        (values : list (list byte)) (tail : list byte) :
  indexOf LF
    (snd (decode (fst (decode newTextDecoder (concat values))) tail)) = None ->
  shown (snd (streamChat msgs (streamOf (values ++ [tail]))))
  = shown (snd (streamChat msgs (streamOf values))).
Proof.
  intros H. unfold streamChat, streamOf; simpl ok; simpl body; cbv iota.
  rewrite !readLoop_shown by apply settled_initialState.
  rewrite concat_app. simpl concat. rewrite app_nil_r, decode_app.
  change (decoder (initialState msgs)) with newTextDecoder.
  destruct (decode newTextDecoder (concat values)) as [d1 t1].
  simpl fst in H. destruct (decode d1 tail) as [d2 t2]. simpl snd in *.
  rewrite <- feedText_merge.
  apply feedText_no_newline; [apply feedText_settled | exact H].
Qed.

Lemma classify_snoc_CR (line : jsstring) :
  endsWith [CR] line = false -> classify (line ++ [CR]) = classify line.
Proof.
  intros H. unfold classify.
  rewrite stripCR_snoc, N.eqb_refl. unfold stripCR. rewrite H. reflexivity.
Qed.

Lemma shownAfter_CR (lines : list jsstring) (sh : list Message * jsstring) :
  Forall (fun l => endsWith [CR] l = false) lines ->
  shownAfter (map (fun l => l ++ [CR]) lines) sh = shownAfter lines sh.
Proof.
  intros H; revert sh; induction H as [|l lines Hl _ IH]; intros sh; simpl;
    [reflexivity|].
  rewrite classify_snoc_CR by assumption.
  destruct (classify l) as [| |jsonStr]; auto.
  destruct (JSON_parse jsonStr) as [parsed|]; auto.
  destruct (delta_content parsed) as [e|delta]; auto.
  destruct (applyDelta delta sh); auto.
Qed.

Lemma completeLines_joined (lines : list jsstring) :
  Forall (fun l => indexOf LF l = None) lines ->
  completeLines (concat (map (fun l => l ++ [LF]) lines)) = lines.
Proof.
  induction 1 as [|l lines Hl _ IH]; simpl; [reflexivity|].
  rewrite <- app_assoc. simpl. rewrite completeLines_cons by assumption.
  rewrite IH. reflexivity.
Qed.

(** Line ends of carriage return and newline give what bare newlines give:
    a stream whose text is a list of lines, each followed by the two
    characters, shows the transcript and the content of the stream with
    the same lines followed by a newline alone. *)
Theorem crlf_streams_show_the_same (msgs : list Message)
        (values1 values2 : list (list byte)) (lines : list jsstring) :
  Forall (fun l => indexOf LF l = None /\ endsWith [CR] l = false) lines ->
  snd (decode newTextDecoder (concat values1))
  = concat (map (fun l => l ++ [CR; LF]) lines) ->
  snd (decode newTextDecoder (concat values2))
  = concat (map (fun l => l ++ [LF]) lines) ->
  shown (snd (streamChat msgs (streamOf values1)))
  = shown (snd (streamChat msgs (streamOf values2))).
Proof.
  intros H E1 E2.
  unfold streamChat, streamOf; simpl ok; simpl body; cbv iota.
  rewrite !readLoop_shown by apply settled_initialState.
  change (decoder (initialState msgs)) with newTextDecoder.
  rewrite E1, E2. unfold feedText. simpl streamDone. cbv iota.
  rewrite !lineLoop_shownAfter. simpl textBuffer.
  replace (map (fun l => l ++ [CR; LF]) lines)
    with (map (fun l => l ++ [LF]) (map (fun l => l ++ [CR]) lines)).
  2:{ rewrite map_map. apply map_ext. intros l.
      rewrite <- app_assoc. reflexivity. }
  rewrite !completeLines_joined.
  - apply shownAfter_CR. eapply Forall_impl; [|exact H]. simpl. tauto.
  - eapply Forall_impl; [|exact H]. simpl. tauto.
  - apply Forall_map. eapply Forall_impl; [|exact H]. simpl.
    intros l [Hl _]. apply indexOf_app_None. split; [exact Hl | reflexivity].
Qed.

Lemma readLoop_done_prefix (values : list (list byte))
      (rest : list ReadResult) (st : State) :
  streamDone (snd (readLoop st (map Chunk values))) = true ->
  readLoop st (map Chunk values ++ rest) = readLoop st (map Chunk values).
Proof.
  revert st; induction values as [|v values IH]; intros st; simpl.
  - destruct (streamDone st) eqn:Hd; simpl.
    + destruct rest; simpl; rewrite Hd; reflexivity.
    + rewrite Hd. discriminate.
  - destruct (streamDone st) eqn:Hd; [reflexivity|]. apply IH.
Qed.

(** Once the sentinel was met nothing more is read: whatever follows in
    the stream, further chunks or a failing read, [streamChat] returns as
    it does for the stream that ends there, so an error after the sentinel
    is never reported. *)
Theorem nothing_is_read_after_done (msgs : list Message)
        (values : list (list byte)) (rest : list ReadResult) :
  streamDone (snd (streamChat msgs (streamOf values))) = true ->
  streamChat msgs
    (Fulfilled (mkResponse true (Some (map Chunk values ++ rest))))
  = streamChat msgs (streamOf values).
Proof.
  unfold streamChat, streamOf; simpl ok; simpl body; cbv iota.
  apply readLoop_done_prefix.
Qed.

Lemma startsWith_removelast (p s : jsstring) :
  startsWith p (removelast s) = true -> startsWith p s = true.
Proof.
  destruct (exists_last_or_nil s) as [->|(s' & x & ->)]; [auto|].
  rewrite removelast_last. apply startsWith_app.
Qed.

(** A line that does not start with the six characters of the prefix is
    passed over, whatever it holds: other fields of an event stream, and
    a data field written without the space after the colon. *)
Theorem lines_without_prefix_are_ignored (st : State) (line0 : jsstring) :
  startsWith (js "data: ") line0 = false ->
  lineBody st line0 = (st, Continue).
Proof.
  intros H. rewrite lineBody_classify.
  replace (classify line0) with Ignored; [reflexivity|].
  unfold classify.
  destruct (startsWith (js ":") (stripCR line0)
            || jseqb (trim (stripCR line0)) []); [reflexivity|].
  destruct (startsWith (js "data: ") (stripCR line0)) eqn:E; [|reflexivity].
  unfold stripCR in E. destruct (endsWith [CR] line0).
  - apply startsWith_removelast in E. congruence.
  - congruence.
Qed.

(** The row "Thinking..." is on the screen when the send begins and, while
    [streamChat] waits for a read, exactly as long as no delta has reached
    the transcript; when the send is over it is off. *)
Theorem thinking_row_until_first_delta (c : UI.Component) :
  showsThinking (beginSend c) = true
  /\ (forall stream s,
        In s (suspensions (initialState (UI.messages (beginSend c))) stream) ->
        (showsThinking (rendering s) = true
         <-> messages s = UI.messages (beginSend c)))
  /\ (forall fetched,
        sendDisabled c = false ->
        showsThinking (handleSend c fetched) = false).
Proof.
  split; [|split].
  - unfold showsThinking, beginSend. simpl. rewrite item_last. reflexivity.
  - intros stream s Hs.
    change (UI.messages (beginSend c))
      with (UI.messages c ++ [ {| role := user; content := UI.input c |} ])
      in *.
    pose proof (suspensions_inSync (UI.messages c)
                  {| role := user; content := UI.input c |} stream s
                  eq_refl Hs) as [[E _]|E];
      unfold showsThinking, rendering; simpl; rewrite E.
    + rewrite item_last. simpl. tauto.
    + rewrite item_last. simpl. split; [discriminate|].
      intros H. apply (f_equal (@length _)) in H.
      rewrite !length_app in H. simpl in H. lia.
  - intros fetched. unfold sendDisabled. rewrite orb_false_iff.
    intros [Hbusy Hinput]. unfold handleSend. rewrite Hinput, Hbusy. simpl.
    destruct (streamChat _ fetched) as [thrown st]. reflexivity.
Qed.

(** [handleSend] leaves the component as it is exactly when the send
    button is disabled: with a blank input or while a send is under way
    the Enter key does nothing, and otherwise a send always happens. *)
Theorem send_button_matches_handler (c : UI.Component)
        (fetched : FetchResult) :
  handleSend c fetched = c <-> sendDisabled c = true.
Proof.
  unfold sendDisabled, handleSend. rewrite (orb_comm (UI.isLoading c)).
  destruct (jseqb (trim (UI.input c)) [] || UI.isLoading c) eqn:G;
    [tauto|].
  split; [|discriminate]. intros H.
  apply orb_false_iff in G as [Hinput _].
  destruct (streamChat _ fetched) as [thrown st].
  apply (f_equal UI.input) in H. simpl in H.
  rewrite <- H in Hinput. discriminate.
Qed.

(** ** The weather component *)

Lemma lessOrEqual_mono (x : JSNumber) (n m : Z) :
  (n <= m)%Z -> lessOrEqual x n = true -> lessOrEqual x m = true.
Proof.
  intros L. destruct x as [| |q|]; simpl; auto.
  rewrite !QArith_base.Qle_bool_iff. intros H.
  eapply QArith_base.Qle_trans; [exact H|].
  rewrite <- QArith_base.Zle_Qle. exact L.
Qed.

(** The icon shown for a weather code: the sun for 0, the cloud up to 48,
    partly cloudy codes included, the rain cloud up to 82, the thunder
    cloud up to 99, the fog above and for a code that is no number; the
    icons of the sun behind a cloud are shown for no code. *)
Theorem weather_icon_of_code (code : JSNumber) :
  getWeatherIcon (getWeatherCondition code)
  = (if strictEquals code 0 then iconSun
     else if lessOrEqual code 48 then iconCloud
     else if lessOrEqual code 82 then iconRain
     else if lessOrEqual code 99 then iconThunder
     else iconFog)
  /\ getWeatherIcon (getWeatherCondition code) <> iconPartly
  /\ getWeatherIcon (getWeatherCondition code) <> iconDefault.
Proof.
  unfold getWeatherCondition.
  destruct (strictEquals code 0); [repeat split; discriminate|].
  destruct (lessOrEqual code 3) eqn:E3.
  { rewrite (lessOrEqual_mono code 3 48) by (assumption || lia).
    repeat split; discriminate. }
  destruct (lessOrEqual code 48) eqn:E48; [repeat split; discriminate|].
  destruct (lessOrEqual code 67) eqn:E67.
  { rewrite (lessOrEqual_mono code 67 82) by (assumption || lia).
    repeat split; discriminate. }
  destruct (lessOrEqual code 77) eqn:E77.
  { rewrite (lessOrEqual_mono code 77 82) by (assumption || lia).
    repeat split; discriminate. }
  destruct (lessOrEqual code 82) eqn:E82; [repeat split; discriminate|].
  destruct (lessOrEqual code 99) eqn:E99; repeat split; discriminate.
Qed.




End AssemblerProperties.

(** ** Closed instances

    The statements above hold for every [NumberSemantics]; the instances
    below are taken at [DecimalTokens]. *)

#[local] Existing Instance DecimalTokens.

Lemma split_line_is_buffered_witness :
  textBuffer (readChunk (initialState []) lineAndHead)
  = snd (decode newTextDecoder splitHead)
  /\ readChunk (readChunk (initialState []) lineAndHead) splitTail
     = count_read (readChunk (initialState []) (lineAndHead ++ splitTail)).
Proof.
  destruct (split_line_is_buffered (initialState []) lineAndHead splitTail)
    as (_ & H & _); [reflexivity | exact (H eq_refl)].
Defined.

(** At the cut delta line the first read puts nothing back: the buffer holds
    the text read and no newline. *)
Lemma split_line_not_requeued : ~ requeue_and_retry [] splitHead splitTail.
Proof.
  intros [H _]. vm_compute in H. discriminate H.
Qed.

(** There the payload read so far does not parse, the first read leaves the
    text read in the buffer, and the two reads end with the delta of the
    whole line. *)
Example split_line_facts :
  throws (payload (snd (decode newTextDecoder splitHead))) = true
  /\ textBuffer (readChunk (initialState []) splitHead)
     = snd (decode newTextDecoder splitHead)
  /\ assistantContent (snd (streamChat [] (streamOf [splitHead; splitTail])))
     = js "Hi".
Proof. repeat split. Qed.

Lemma chunk_boundary_invariance_witness :
  assistantContent (snd (streamChat [] (streamOf [splitHead; splitTail])))
  = assistantContent (snd (streamChat [] (streamOf [splitHead ++ splitTail])))
  /\ messages (snd (streamChat [] (streamOf [splitHead; splitTail])))
     = messages (snd (streamChat [] (streamOf [splitHead ++ splitTail]))).
Proof.
  apply (chunk_boundary_invariance [] [splitHead; splitTail]
           [splitHead ++ splitTail]).
  reflexivity.
Defined.

Lemma done_halts_mutation_witness :
  readLoop
    (lineLoop
       (set_textBuffer (js "data: [DONE]" ++ LF :: jsq "data: {'x':1}" ++ [LF])
          (initialState [])))
    [Chunk splitHead]
  = (None,
     lineLoop
       (set_textBuffer (js "data: [DONE]" ++ LF :: jsq "data: {'x':1}" ++ [LF])
          (initialState []))).
Proof.
  destruct (done_halts_mutation
              (set_textBuffer
                 (js "data: [DONE]" ++ LF :: jsq "data: {'x':1}" ++ [LF])
                 (initialState []))
              (js "data: [DONE]") (jsq "data: {'x':1}" ++ [LF])
              [Chunk splitHead])
    as (_ & _ & _ & _ & H);
    [reflexivity | reflexivity | reflexivity | reflexivity | exact H].
Defined.

Lemma handshake_failure_witness :
  handleSend asking (Fulfilled (mkResponse false None))
  = UI.mkComponent
      (UI.messages asking
       ++ [ {| role := user; content := UI.input asking |} ]
       ++ [fallbackMessage])
      [] false.
Proof.
  destruct (handshake_failure asking (mkResponse false None))
    as (_ & _ & H); [left; reflexivity | reflexivity | reflexivity | exact H].
Defined.

Lemma hello_scenario_witness :
  messages
    (snd (streamChat (UI.messages (beginSend asking)) (streamOf [helloStream])))
  = UI.messages (beginSend asking)
    ++ [ {| role := assistant; content := js "Hello" |} ].
Proof.
  destruct (hello_scenario (UI.messages asking)
              {| role := user; content := UI.input asking |} [helloStream])
    as (H & _); [reflexivity | reflexivity | exact H].
Defined.

Lemma ignored_lines_change_nothing_witness :
  lineBody (initialState []) (js ": keep-alive")
  = (initialState [], Continue).
Proof.
  destruct (ignored_lines_change_nothing (initialState []) (js ": keep-alive"))
    as (H & _); [right; reflexivity | exact H].
Defined.

(** After a complete line whose payload does not parse the read loop waits
    with that line, newline included, in the buffer. *)
Lemma requeued_line_stays_in_buffer :
  ~ buffer_holds_no_line [] [Chunk brokenLine].
Proof.
  intros H.
  assert (E := H (readChunk (initialState []) brokenLine)
                 (or_intror (or_introl eq_refl))).
  vm_compute in E. discriminate E.
Qed.

Lemma buffer_between_reads_witness :
  indexOf LF (textBuffer (readChunk (initialState []) brokenLine)) = None
  \/ requeued (textBuffer (readChunk (initialState []) brokenLine)).
Proof.
  apply (buffer_between_reads [] [Chunk brokenLine]).
  right; left; reflexivity.
Defined.

Lemma send_errors_are_caught_witness :
  UI.isLoading (beginSend asking) = true
  /\ handleSend asking
       (Fulfilled (mkResponse true (Some (map Chunk [splitHead] ++ [Rejected]))))
     = UI.mkComponent
         (UI.messages (handleSend asking (streamOf [splitHead]))
          ++ [fallbackMessage])
         [] false.
Proof.
  destruct (send_errors_are_caught asking) as (H1 & _ & H3);
    [reflexivity | reflexivity | ].
  split; [exact H1|]. apply (H3 [splitHead] []). reflexivity.
Defined.

Lemma requeue_stalls_stream_witness :
  shown (snd (readLoop (readChunk (initialState []) brokenLine)
                (map Chunk [splitHead ++ splitTail])))
  = shown (readChunk (initialState []) brokenLine).
Proof.
  apply (requeue_stalls_stream (readChunk (initialState []) brokenLine)
           [splitHead ++ splitTail]); [reflexivity|].
  exists (js "data: {"), []. repeat split.
Defined.

Lemma payload_without_delta_witness :
  lineBody (initialState []) (jsq "data: {'choices':[{'delta':{}}]}")
  = (initialState [], Continue).
Proof.
  apply (payload_without_delta (initialState [])
           (jsq "data: {'choices':[{'delta':{}}]}")
           (jsq "{'choices':[{'delta':{}}]}")
           (JObject [(js "choices", JArray [JObject [(js "delta", JObject [])]])])
           None); reflexivity.
Defined.


Lemma send_keeps_history_witness :
  exists tail,
    UI.messages (handleSend asking (streamOf [helloStream]))
    = UI.messages asking
      ++ [ {| role := user; content := UI.input asking |} ] ++ tail
    /\ (length tail <= 2)%nat
    /\ Forall (fun m => role m = assistant) tail
    /\ UI.input (handleSend asking (streamOf [helloStream])) = []
    /\ UI.isLoading (handleSend asking (streamOf [helloStream])) = false.
Proof.
  apply (send_keeps_history asking (streamOf [helloStream])). reflexivity.
Defined.

Lemma unterminated_tail_is_dropped_witness :
  shown (snd (streamChat [] (streamOf ([splitHead ++ splitTail] ++ [splitHead]))))
  = shown (snd (streamChat [] (streamOf [splitHead ++ splitTail]))).
Proof.
  apply (unterminated_tail_is_dropped [] [splitHead ++ splitTail] splitHead).
  reflexivity.
Defined.

Lemma crlf_streams_show_the_same_witness :
  shown (snd (streamChat []
                (streamOf [bytesq "data: {'choices':[{'delta':{'content':'Hi'}}]}"
                           ++ [x0d; x0a] ++ bytes "data: [DONE]" ++ [x0d; x0a]])))
  = shown (snd (streamChat []
                  (streamOf [bytesq "data: {'choices':[{'delta':{'content':'Hi'}}]}"
                             ++ [x0a] ++ bytes "data: [DONE]" ++ [x0a]]))).
Proof.
  apply (crlf_streams_show_the_same [] _ _
           [jsq "data: {'choices':[{'delta':{'content':'Hi'}}]}";
            js "data: [DONE]"]).
  - repeat constructor.
  - reflexivity.
  - reflexivity.
Defined.

Lemma lines_without_prefix_are_ignored_witness :
  lineBody (initialState [])
    (jsq "data:{'choices':[{'delta':{'content':'Hi'}}]}")
  = (initialState [], Continue).
Proof.
  apply (lines_without_prefix_are_ignored (initialState [])
           (jsq "data:{'choices':[{'delta':{'content':'Hi'}}]}")).
  reflexivity.
Defined.

Lemma nothing_is_read_after_done_witness :
  streamChat []
    (Fulfilled (mkResponse true (Some (map Chunk [helloStream] ++ [Rejected]))))
  = streamChat [] (streamOf [helloStream]).
Proof.
  apply (nothing_is_read_after_done [] [helloStream] [Rejected]).
  reflexivity.
Defined.


(** A truthy city need not name a place: a blank string and an empty array
    are truthy. *)
Example located_city_can_be_blank :
  city (getCurrentLocation delhiLatitude delhiLongitude (Some measured)
          (GeocodeBody (jsq "{'address':{'city':' '},'name':'Agra'}")))
  = Some (JString (js " "))
  /\ city (getCurrentLocation delhiLatitude delhiLongitude (Some measured)
             (GeocodeBody (jsq "{'name':[]}")))
     = Some (JArray []).
Proof. split; reflexivity. Qed.

(** A delta that is an object with a member [toString] cannot be added to
    the content: its line is put back, and the deltas behind it are never
    shown. *)
Example object_delta_is_requeued :
  requeued (textBuffer (readChunk (initialState []) objectDelta))
  /\ shown (snd (streamChat [] (streamOf [objectDelta; helloStream])))
     = ([], []).
Proof.
  split; [|reflexivity].
  exists (snd (decode newTextDecoder (removelast objectDelta))), [].
  repeat split.
Qed.
